(** * The max-age channel filter (src/core/lib/channel/max_age_filter.c)

    A shallow embedding of the filter's channel-element constructor and
    destructor, its four closures and its per-call hooks, together with a
    small model of the collaborators the filter talks to (the closure
    scheduler, the timer subsystem and the transport at the bottom of the
    channel stack).  The filter's own functions are transcribed from the C
    source, statement by statement, in a state monad over [world]; every call
    that leaves the filter is recorded in a trace of [event]s. *)

From Stdlib Require Import ZArith List Bool String Lia.
Import ListNotations.
Local Open Scope string_scope.
Local Open Scope list_scope.
Local Open Scope Z_scope.

(** ** Durations and errors *)

Inductive gpr_clock_type := GPR_CLOCK_MONOTONIC | GPR_TIMESPAN.

(** Modelled from the spec: the declaration of [gpr_timespec] is not part of
    the source file; the spec's data model gives a configured duration as
    [Duration | Infinite], a duration being a number of seconds. *)
Inductive gpr_timespec :=
| Finite (seconds : Z)
| Infinite.

(** Modelled from the spec: [gpr_inf_future] is the [Infinite] duration. *)
Definition gpr_inf_future (_ : gpr_clock_type) : gpr_timespec := Infinite.

(** Modelled from the spec: an integer number of seconds is stored as that
    many seconds. *)
Definition gpr_time_from_seconds (s : Z) (_ : gpr_clock_type) : gpr_timespec :=
  Finite s.

(** Modelled from the spec: three-way comparison of durations, [Infinite]
    above every finite one; the result is 0 exactly on equal durations. *)
Definition gpr_time_cmp (a b : gpr_timespec) : Z :=
  match a, b with
  | Finite x, Finite y =>
      match x ?= y with Lt => -1 | Eq => 0 | Gt => 1 end
  | Finite _, Infinite => -1
  | Infinite, Finite _ => 1
  | Infinite, Infinite => 0
  end.

(** Modelled from the spec: "now + max_age"; adding an [Infinite] duration
    gives an [Infinite] deadline. *)
Definition gpr_time_add (a b : gpr_timespec) : gpr_timespec :=
  match a, b with
  | Finite x, Finite y => Finite (x + y)
  | _, _ => Infinite
  end.

(** [INT_MAX] of <limits.h>, for a 32-bit [int]. *)
Definition INT_MAX : Z := 2147483647.

Definition DEFAULT_MAX_CONNECTION_AGE_S : Z := INT_MAX.
Definition DEFAULT_MAX_CONNECTION_AGE_GRACE_S : Z := INT_MAX.

(** Modelled from the spec: the two configuration keys, named as in the
    spec's configuration surface (the macros are not defined in the source
    file). *)
Definition GPRC_ARG_MAX_CONNECION_AGE_S : string :=
  "max-connection-age-seconds".
Definition GPRC_ARG_MAX_CONNECION_AGE_GRACE_S : string :=
  "max-connection-age-grace-seconds".

Inductive grpc_error_ints := GRPC_ERROR_INT_HTTP2_ERROR.

Inductive grpc_http2_error_code :=
| GRPC_HTTP2_NO_ERROR
| GRPC_HTTP2_OTHER_CODE (code : positive).

(** Modelled from the spec: a status is Ok, Cancelled or another error; an
    error other than the two special ones carries a description and the
    integer attributes set on it. *)
Inductive grpc_error :=
| GRPC_ERROR_NONE
| GRPC_ERROR_CANCELLED
| GRPC_ERROR_CREATED (desc : string)
                     (ints : list (grpc_error_ints * grpc_http2_error_code)).

(** Modelled from the spec: a new error with the given description. *)
Definition GRPC_ERROR_CREATE_FROM_STATIC_STRING (desc : string) : grpc_error :=
  GRPC_ERROR_CREATED desc [].

(** Modelled from the spec: the error [e] carrying the code [v] under
    [which]; only errors with a description are given attributes here. *)
Definition grpc_error_set_int (e : grpc_error) (which : grpc_error_ints)
    (v : grpc_http2_error_code) : grpc_error :=
  match e with
  | GRPC_ERROR_CREATED d l => GRPC_ERROR_CREATED d ((which, v) :: l)
  | _ => e
  end.

Definition is_none (e : grpc_error) : bool :=
  match e with GRPC_ERROR_NONE => true | _ => false end.

Definition is_cancelled (e : grpc_error) : bool :=
  match e with GRPC_ERROR_CANCELLED => true | _ => false end.

(** ** Channel arguments *)

(** Modelled from the spec: a configuration entry is an integer number of
    seconds stored under a key. *)
Record grpc_arg := {
  key : string;
  value_integer : Z
}.

Record grpc_integer_options := {
  default_value : Z;
  min_value : Z;
  max_value : Z
}.

Definition grpc_channel_stack := nat.

Record grpc_channel_element_args := {
  args_channel_stack : grpc_channel_stack;
  channel_args : list grpc_arg
}.

(** Modelled from the spec: [grpc_channel_arg_get_integer] is defined outside
    the source file.  The spec says of the two integer-seconds values that
    values below 1 second are clamped to 1 and that an out-of-range
    configuration is clamped, not fatal. *)
Definition grpc_channel_arg_get_integer_spec (a : grpc_arg)
    (options : grpc_integer_options) : Z :=
  if value_integer a <? min_value options then min_value options
  else if max_value options <? value_integer a then max_value options
  else value_integer a.

(** ** The filter's state *)

(** The four callbacks a closure of this filter can hold. *)
Inductive callback :=
| cb_start_max_age_timer_after_init
| cb_start_max_age_grace_timer_after_goaway_op
| cb_close_max_age_channel
| cb_force_close_max_age_channel.

(** A [grpc_closure] field is either not yet initialised or holds a callback
    (its argument is always the enclosing [channel_data]). *)
Inductive grpc_closure :=
| closure_uninit
| closure_of (cb : callback).

(** The address of one of the four closure fields of [channel_data]. *)
Inductive closure_ptr :=
| p_close_max_age_channel
| p_force_close_max_age_channel
| p_start_max_age_timer_after_init
| p_start_max_age_grace_timer_after_goaway_op.

(** The address of one of the two timer fields of [channel_data]. *)
Inductive timer_ptr :=
| p_max_age_timer
| p_max_age_grace_timer.

(** The fields of [channel_data] the filter itself reads and writes.  The
    mutex and the two [grpc_timer] fields belong to their subsystems and live
    in [world]. *)
Record channel_data := {
  channel_stack : grpc_channel_stack;
  max_age_timer_pending : bool;
  max_age_grace_timer_pending : bool;
  max_connection_age : gpr_timespec;
  max_connection_age_grace : gpr_timespec;
  close_max_age_channel_closure : grpc_closure;
  force_close_max_age_channel_closure : grpc_closure;
  start_max_age_timer_after_init_closure : grpc_closure;
  start_max_age_grace_timer_after_goaway_op_closure : grpc_closure
}.

Definition set_channel_stack (v : grpc_channel_stack) (c : channel_data) :=
  {| channel_stack := v;
     max_age_timer_pending := max_age_timer_pending c;
     max_age_grace_timer_pending := max_age_grace_timer_pending c;
     max_connection_age := max_connection_age c;
     max_connection_age_grace := max_connection_age_grace c;
     close_max_age_channel_closure := close_max_age_channel_closure c;
     force_close_max_age_channel_closure :=
       force_close_max_age_channel_closure c;
     start_max_age_timer_after_init_closure :=
       start_max_age_timer_after_init_closure c;
     start_max_age_grace_timer_after_goaway_op_closure :=
       start_max_age_grace_timer_after_goaway_op_closure c |}.

Definition set_pending (t : timer_ptr) (v : bool) (c : channel_data) :=
  {| channel_stack := channel_stack c;
     max_age_timer_pending :=
       match t with p_max_age_timer => v
                  | p_max_age_grace_timer => max_age_timer_pending c end;
     max_age_grace_timer_pending :=
       match t with p_max_age_timer => max_age_grace_timer_pending c
                  | p_max_age_grace_timer => v end;
     max_connection_age := max_connection_age c;
     max_connection_age_grace := max_connection_age_grace c;
     close_max_age_channel_closure := close_max_age_channel_closure c;
     force_close_max_age_channel_closure :=
       force_close_max_age_channel_closure c;
     start_max_age_timer_after_init_closure :=
       start_max_age_timer_after_init_closure c;
     start_max_age_grace_timer_after_goaway_op_closure :=
       start_max_age_grace_timer_after_goaway_op_closure c |}.

Definition set_max_connection_age (v : gpr_timespec) (c : channel_data) :=
  {| channel_stack := channel_stack c;
     max_age_timer_pending := max_age_timer_pending c;
     max_age_grace_timer_pending := max_age_grace_timer_pending c;
     max_connection_age := v;
     max_connection_age_grace := max_connection_age_grace c;
     close_max_age_channel_closure := close_max_age_channel_closure c;
     force_close_max_age_channel_closure :=
       force_close_max_age_channel_closure c;
     start_max_age_timer_after_init_closure :=
       start_max_age_timer_after_init_closure c;
     start_max_age_grace_timer_after_goaway_op_closure :=
       start_max_age_grace_timer_after_goaway_op_closure c |}.

Definition set_max_connection_age_grace (v : gpr_timespec)
    (c : channel_data) :=
  {| channel_stack := channel_stack c;
     max_age_timer_pending := max_age_timer_pending c;
     max_age_grace_timer_pending := max_age_grace_timer_pending c;
     max_connection_age := max_connection_age c;
     max_connection_age_grace := v;
     close_max_age_channel_closure := close_max_age_channel_closure c;
     force_close_max_age_channel_closure :=
       force_close_max_age_channel_closure c;
     start_max_age_timer_after_init_closure :=
       start_max_age_timer_after_init_closure c;
     start_max_age_grace_timer_after_goaway_op_closure :=
       start_max_age_grace_timer_after_goaway_op_closure c |}.

Definition set_closure (p : closure_ptr) (v : grpc_closure)
    (c : channel_data) :=
  {| channel_stack := channel_stack c;
     max_age_timer_pending := max_age_timer_pending c;
     max_age_grace_timer_pending := max_age_grace_timer_pending c;
     max_connection_age := max_connection_age c;
     max_connection_age_grace := max_connection_age_grace c;
     close_max_age_channel_closure :=
       match p with p_close_max_age_channel => v
                  | _ => close_max_age_channel_closure c end;
     force_close_max_age_channel_closure :=
       match p with p_force_close_max_age_channel => v
                  | _ => force_close_max_age_channel_closure c end;
     start_max_age_timer_after_init_closure :=
       match p with p_start_max_age_timer_after_init => v
                  | _ => start_max_age_timer_after_init_closure c end;
     start_max_age_grace_timer_after_goaway_op_closure :=
       match p with p_start_max_age_grace_timer_after_goaway_op => v
                  | _ => start_max_age_grace_timer_after_goaway_op_closure c
       end |}.

Definition get_closure (p : closure_ptr) (c : channel_data) : grpc_closure :=
  match p with
  | p_close_max_age_channel => close_max_age_channel_closure c
  | p_force_close_max_age_channel => force_close_max_age_channel_closure c
  | p_start_max_age_timer_after_init =>
      start_max_age_timer_after_init_closure c
  | p_start_max_age_grace_timer_after_goaway_op =>
      start_max_age_grace_timer_after_goaway_op_closure c
  end.

(** ** Transport operations, events and the world *)

Record grpc_transport_op := {
  on_consumed : option closure_ptr;
  goaway_error : grpc_error;
  disconnect_with_error : grpc_error
}.

(** Modelled from the spec: [grpc_make_transport_op] returns an operation
    that requests nothing yet and runs [on_consumed] once it has been taken
    downstream. *)
Definition grpc_make_transport_op (on_consumed : option closure_ptr)
    : grpc_transport_op :=
  {| on_consumed := on_consumed;
     goaway_error := GRPC_ERROR_NONE;
     disconnect_with_error := GRPC_ERROR_NONE |}.

Definition set_goaway_error (e : grpc_error) (op : grpc_transport_op) :=
  {| on_consumed := on_consumed op;
     goaway_error := e;
     disconnect_with_error := disconnect_with_error op |}.

Definition set_disconnect_with_error (e : grpc_error)
    (op : grpc_transport_op) :=
  {| on_consumed := on_consumed op;
     goaway_error := goaway_error op;
     disconnect_with_error := e |}.

(** Everything the filter does that is visible outside the body of its
    functions, and the three ways the surroundings call into the filter. *)
Inductive event :=
| EvMuInit
| EvMuLock
| EvMuUnlock
| EvStorePending (t : timer_ptr) (v : bool)
| EvTimerInit (t : timer_ptr) (deadline : gpr_timespec) (c : closure_ptr)
              (now : gpr_timespec)
| EvTimerCancel (t : timer_ptr)
| EvStackRef (stack : grpc_channel_stack) (reason : string)
| EvStackUnref (stack : grpc_channel_stack) (reason : string)
| EvClosureSched (c : closure_ptr) (error : grpc_error)
| EvStartTransportOp (stack : grpc_channel_stack) (index : nat)
                     (op : grpc_transport_op)
| EvLog (what : string) (error : grpc_error)
| EvClosureRun (c : closure_ptr) (error : grpc_error)
| EvTimerFired (t : timer_ptr) (error : grpc_error)
| EvDestroy.

(** A pending timer in the timer subsystem: its deadline and its closure. *)
Definition grpc_timer := option (gpr_timespec * closure_ptr).

Record world := {
  chand : channel_data;
  max_age_timer : grpc_timer;
  max_age_grace_timer : grpc_timer;
  stack_refs : Z;
  exec_ctx : list (closure_ptr * grpc_error);
  transport : list grpc_transport_op;
  clock : Z;
  destroyed : bool;
  trace : list event
}.

Definition set_chand (v : channel_data) (w : world) : world :=
  {| chand := v; max_age_timer := max_age_timer w;
     max_age_grace_timer := max_age_grace_timer w;
     stack_refs := stack_refs w; exec_ctx := exec_ctx w;
     transport := transport w; clock := clock w; destroyed := destroyed w;
     trace := trace w |}.

Definition get_timer (t : timer_ptr) (w : world) : grpc_timer :=
  match t with
  | p_max_age_timer => max_age_timer w
  | p_max_age_grace_timer => max_age_grace_timer w
  end.

Definition set_timer (t : timer_ptr) (v : grpc_timer) (w : world) : world :=
  {| chand := chand w;
     max_age_timer :=
       match t with p_max_age_timer => v
                  | p_max_age_grace_timer => max_age_timer w end;
     max_age_grace_timer :=
       match t with p_max_age_timer => max_age_grace_timer w
                  | p_max_age_grace_timer => v end;
     stack_refs := stack_refs w; exec_ctx := exec_ctx w;
     transport := transport w; clock := clock w; destroyed := destroyed w;
     trace := trace w |}.

Definition set_stack_refs (v : Z) (w : world) : world :=
  {| chand := chand w; max_age_timer := max_age_timer w;
     max_age_grace_timer := max_age_grace_timer w;
     stack_refs := v; exec_ctx := exec_ctx w;
     transport := transport w; clock := clock w; destroyed := destroyed w;
     trace := trace w |}.

Definition set_exec_ctx (v : list (closure_ptr * grpc_error)) (w : world)
    : world :=
  {| chand := chand w; max_age_timer := max_age_timer w;
     max_age_grace_timer := max_age_grace_timer w;
     stack_refs := stack_refs w; exec_ctx := v;
     transport := transport w; clock := clock w; destroyed := destroyed w;
     trace := trace w |}.

Definition set_transport (v : list grpc_transport_op) (w : world) : world :=
  {| chand := chand w; max_age_timer := max_age_timer w;
     max_age_grace_timer := max_age_grace_timer w;
     stack_refs := stack_refs w; exec_ctx := exec_ctx w;
     transport := v; clock := clock w; destroyed := destroyed w;
     trace := trace w |}.

Definition set_clock (v : Z) (w : world) : world :=
  {| chand := chand w; max_age_timer := max_age_timer w;
     max_age_grace_timer := max_age_grace_timer w;
     stack_refs := stack_refs w; exec_ctx := exec_ctx w;
     transport := transport w; clock := v; destroyed := destroyed w;
     trace := trace w |}.

Definition set_destroyed (v : bool) (w : world) : world :=
  {| chand := chand w; max_age_timer := max_age_timer w;
     max_age_grace_timer := max_age_grace_timer w;
     stack_refs := stack_refs w; exec_ctx := exec_ctx w;
     transport := transport w; clock := clock w; destroyed := v;
     trace := trace w |}.

(** The trace is kept newest first; [emit] conses. *)
Definition log_event (e : event) (w : world) : world :=
  {| chand := chand w; max_age_timer := max_age_timer w;
     max_age_grace_timer := max_age_grace_timer w;
     stack_refs := stack_refs w; exec_ctx := exec_ctx w;
     transport := transport w; clock := clock w; destroyed := destroyed w;
     trace := e :: trace w |}.

(** The events in the order they happened. *)
Definition history (w : world) : list event := rev (trace w).

(** ** A state monad over the world *)

Definition M (A : Type) : Type := world -> A * world.

Definition ret {A} (a : A) : M A := fun w => (a, w).

Definition bind {A B} (c : M A) (k : A -> M B) : M B :=
  fun w => let (a, w') := c w in k a w'.

Declare Scope m_scope.
Delimit Scope m_scope with M.
Notation "x <- c ;; k" := (bind c (fun x => k))
  (at level 61, c at next level, right associativity) : m_scope.
Notation "c ;; k" := (bind c (fun _ => k))
  (at level 61, right associativity) : m_scope.
Local Open Scope m_scope.

Definition exec {A} (c : M A) (w : world) : world := snd (c w).

Definition emit (e : event) : M unit := fun w => (tt, log_event e w).

(** Reading and writing a field of [chand]. *)
Definition load {A} (f : channel_data -> A) : M A :=
  fun w => (f (chand w), w).

Definition store (f : channel_data -> channel_data) : M unit :=
  fun w => (tt, set_chand (f (chand w)) w).

(** A write to one of the two pending flags is made visible in the trace, so
    that its place relative to the mutex operations can be read off. *)
Definition store_pending (t : timer_ptr) (v : bool) : M unit :=
  store (set_pending t v) ;; emit (EvStorePending t v).

(** ** The collaborators' entry points

    Modelled from the spec: none of these is defined in the source file.  Each
    one records its call in the trace and updates the part of the world it
    owns, following the spec's external interfaces: the timer subsystem's
    arm and cancel, the pipeline's dispatch and reference counting, and the
    deferred run of a scheduled closure. *)

(** Modelled from the spec: the mutex operations, recorded in the trace. *)
Definition gpr_mu_init : M unit := emit EvMuInit.
Definition gpr_mu_lock : M unit := emit EvMuLock.
Definition gpr_mu_unlock : M unit := emit EvMuUnlock.

(** Modelled from the spec: the current reading of the clock. *)
Definition gpr_now (_ : gpr_clock_type) : M gpr_timespec :=
  fun w => (Finite (clock w), w).

(** Modelled from the spec: arm timer [t] to run closure [c] at [deadline]. *)
Definition grpc_timer_init (t : timer_ptr) (deadline : gpr_timespec)
    (c : closure_ptr) (now : gpr_timespec) : M unit :=
  (fun w => (tt, set_timer t (Some (deadline, c)) w)) ;;
  emit (EvTimerInit t deadline c now).

(** Modelled from the spec: cancellation is a request; the timer's closure
    still runs, once, with the status the timer subsystem chooses. *)
Definition grpc_timer_cancel (t : timer_ptr) : M unit :=
  emit (EvTimerCancel t).

(** Modelled from the spec: take one reference to the channel stack. *)
Definition GRPC_CHANNEL_STACK_REF (stack : grpc_channel_stack)
    (reason : string) : M unit :=
  (fun w => (tt, set_stack_refs (stack_refs w + 1) w)) ;;
  emit (EvStackRef stack reason).

(** Modelled from the spec: drop one reference to the channel stack. *)
Definition GRPC_CHANNEL_STACK_UNREF (stack : grpc_channel_stack)
    (reason : string) : M unit :=
  (fun w => (tt, set_stack_refs (stack_refs w - 1) w)) ;;
  emit (EvStackUnref stack reason).

(** Modelled from the spec: store callback [cb] in the closure field [p]. *)
Definition grpc_closure_init (p : closure_ptr) (cb : callback) : M unit :=
  store (set_closure p (closure_of cb)).

(** Modelled from the spec: hand closure [c] to the scheduler, to be run
    later with [error]. *)
Definition grpc_closure_sched (c : closure_ptr) (error : grpc_error)
    : M unit :=
  (fun w => (tt, set_exec_ctx (exec_ctx w ++ [(c, error)]) w)) ;;
  emit (EvClosureSched c error).

(** Modelled from the spec: an element of a channel stack, by its index. *)
Definition grpc_channel_element := (grpc_channel_stack * nat)%type.

Definition grpc_channel_stack_element (stack : grpc_channel_stack)
    (i : nat) : grpc_channel_element := (stack, i).

(** Modelled from the spec: [elem->filter->start_transport_op], which hands
    [op] to the pipeline at [elem]. *)
Definition start_transport_op (elem : grpc_channel_element)
    (op : grpc_transport_op) : M unit :=
  (fun w => (tt, set_transport (transport w ++ [op]) w)) ;;
  emit (EvStartTransportOp (fst elem) (snd elem) op).

(** Modelled from the spec: log [error] unless it is Ok; the result tells
    whether it was Ok. *)
Definition GRPC_LOG_IF_ERROR (what : string) (error : grpc_error)
    : M bool :=
  if is_none error then ret true
  else emit (EvLog what error) ;; ret false.

(** ** The filter's functions, from the source *)

Definition start_max_age_timer_after_init (error : grpc_error) : M unit :=
  gpr_mu_lock ;;
  store_pending p_max_age_timer true ;;
  now <- gpr_now GPR_CLOCK_MONOTONIC ;;
  age <- load max_connection_age ;;
  now' <- gpr_now GPR_CLOCK_MONOTONIC ;;
  grpc_timer_init p_max_age_timer (gpr_time_add now age)
                  p_close_max_age_channel now' ;;
  gpr_mu_unlock ;;
  stack <- load channel_stack ;;
  GRPC_CHANNEL_STACK_UNREF stack "max_age start_max_age_timer_after_init".

Definition start_max_age_grace_timer_after_goaway_op (error : grpc_error)
    : M unit :=
  gpr_mu_lock ;;
  store_pending p_max_age_grace_timer true ;;
  now <- gpr_now GPR_CLOCK_MONOTONIC ;;
  grace <- load max_connection_age_grace ;;
  now' <- gpr_now GPR_CLOCK_MONOTONIC ;;
  grpc_timer_init p_max_age_grace_timer (gpr_time_add now grace)
                  p_force_close_max_age_channel now' ;;
  gpr_mu_unlock ;;
  stack <- load channel_stack ;;
  GRPC_CHANNEL_STACK_UNREF stack
    "max_age start_max_age_grace_timer_after_goaway_op".

Definition close_max_age_channel (error : grpc_error) : M unit :=
  gpr_mu_lock ;;
  store_pending p_max_age_timer false ;;
  gpr_mu_unlock ;;
  if is_none error then
    stack <- load channel_stack ;;
    GRPC_CHANNEL_STACK_REF stack
      "max_age start_max_age_grace_timer_after_goaway_op" ;;
    let op :=
      grpc_make_transport_op
        (Some p_start_max_age_grace_timer_after_goaway_op) in
    let op :=
      set_goaway_error
        (grpc_error_set_int (GRPC_ERROR_CREATE_FROM_STATIC_STRING "max_age")
                            GRPC_ERROR_INT_HTTP2_ERROR GRPC_HTTP2_NO_ERROR)
        op in
    stack <- load channel_stack ;;
    let elem := grpc_channel_stack_element stack 0 in
    start_transport_op elem op
  else if negb (is_cancelled error) then
    GRPC_LOG_IF_ERROR "close_max_age_channel" error ;; ret tt
  else ret tt.

Definition force_close_max_age_channel (error : grpc_error) : M unit :=
  gpr_mu_lock ;;
  store_pending p_max_age_grace_timer false ;;
  gpr_mu_unlock ;;
  if is_none error then
    let op := grpc_make_transport_op None in
    let op :=
      set_disconnect_with_error
        (GRPC_ERROR_CREATE_FROM_STATIC_STRING "Channel reaches max age") op in
    stack <- load channel_stack ;;
    let elem := grpc_channel_stack_element stack 0 in
    start_transport_op elem op
  else if negb (is_cancelled error) then
    GRPC_LOG_IF_ERROR "force_close_max_age_channel" error ;; ret tt
  else ret tt.

(** The per-call hooks; the filter keeps no call data. *)
Definition grpc_call_element := nat.
Definition grpc_call_element_args := nat.
Definition grpc_call_final_info := nat.

Definition init_call_elem (elem : grpc_call_element)
    (args : grpc_call_element_args) : M grpc_error :=
  ret GRPC_ERROR_NONE.

Definition destroy_call_elem (elem : grpc_call_element)
    (final_info : grpc_call_final_info) (ignored : option closure_ptr)
    : M unit :=
  ret tt.

(** A [for] loop over the channel arguments. *)
Fixpoint for_each {A} (l : list A) (body : A -> M unit) : M unit :=
  match l with
  | [] => ret tt
  | a :: l' => body a ;; for_each l' body
  end.

Section WithChannelArgs.

(** [grpc_channel_arg_get_integer] is defined outside the source file; the
    constructor is transcribed over an arbitrary implementation of it. *)
Variable grpc_channel_arg_get_integer :
  grpc_arg -> grpc_integer_options -> Z.

Definition init_channel_elem (args : grpc_channel_element_args)
    : M grpc_error :=
  gpr_mu_init ;;
  store_pending p_max_age_timer false ;;
  store_pending p_max_age_grace_timer false ;;
  store (set_channel_stack (args_channel_stack args)) ;;
  store (set_max_connection_age
           (if DEFAULT_MAX_CONNECTION_AGE_S =? INT_MAX
            then gpr_inf_future GPR_TIMESPAN
            else gpr_time_from_seconds DEFAULT_MAX_CONNECTION_AGE_S
                                       GPR_TIMESPAN)) ;;
  store (set_max_connection_age
           (if DEFAULT_MAX_CONNECTION_AGE_GRACE_S =? INT_MAX
            then gpr_inf_future GPR_TIMESPAN
            else gpr_time_from_seconds DEFAULT_MAX_CONNECTION_AGE_GRACE_S
                                       GPR_TIMESPAN)) ;;
  for_each (channel_args args) (fun a =>
    if String.eqb (key a) GPRC_ARG_MAX_CONNECION_AGE_S then
      let value :=
        grpc_channel_arg_get_integer a
          {| default_value := DEFAULT_MAX_CONNECTION_AGE_S;
             min_value := 1; max_value := INT_MAX |} in
      store (set_max_connection_age
               (if value =? INT_MAX then gpr_inf_future GPR_TIMESPAN
                else gpr_time_from_seconds value GPR_TIMESPAN))
    else if String.eqb (key a) GPRC_ARG_MAX_CONNECION_AGE_GRACE_S then
      let value :=
        grpc_channel_arg_get_integer a
          {| default_value := DEFAULT_MAX_CONNECTION_AGE_GRACE_S;
             min_value := 1; max_value := INT_MAX |} in
      store (set_max_connection_age_grace
               (if value =? INT_MAX then gpr_inf_future GPR_TIMESPAN
                else gpr_time_from_seconds value GPR_TIMESPAN))
    else ret tt) ;;
  grpc_closure_init p_close_max_age_channel cb_close_max_age_channel ;;
  grpc_closure_init p_force_close_max_age_channel
                    cb_force_close_max_age_channel ;;
  grpc_closure_init p_start_max_age_timer_after_init
                    cb_start_max_age_timer_after_init ;;
  grpc_closure_init p_start_max_age_grace_timer_after_goaway_op
                    cb_start_max_age_grace_timer_after_goaway_op ;;
  age <- load max_connection_age ;;
  (if negb (gpr_time_cmp age (gpr_inf_future GPR_TIMESPAN) =? 0) then
     stack <- load channel_stack ;;
     GRPC_CHANNEL_STACK_REF stack
       "max_age start_max_age_timer_after_init" ;;
     grpc_closure_sched p_start_max_age_timer_after_init GRPC_ERROR_NONE
   else ret tt) ;;
  ret GRPC_ERROR_NONE.

End WithChannelArgs.

Definition destroy_channel_elem : M unit :=
  gpr_mu_lock ;;
  age_pending <- load max_age_timer_pending ;;
  (if age_pending then grpc_timer_cancel p_max_age_timer else ret tt) ;;
  grace_pending <- load max_age_grace_timer_pending ;;
  (if grace_pending then grpc_timer_cancel p_max_age_grace_timer
   else ret tt) ;;
  gpr_mu_unlock.

(** ** The surroundings: scheduler, timers, transport, teardown

    Modelled from the spec: the code that runs the filter's closures is not
    in the source file.  Following the spec, a scheduled closure runs once,
    after it was scheduled; a timer that was armed runs its closure once, with
    status Ok, Cancelled or another error, an Ok status only once the deadline
    is reached; cancellation is advisory, so the status of a cancelled timer
    is not forced to be Cancelled; the continuation of a transport operation
    runs once the operation was taken downstream; teardown happens once, at
    any point. *)

Definition run_callback (cb : callback) (error : grpc_error) : M unit :=
  match cb with
  | cb_start_max_age_timer_after_init => start_max_age_timer_after_init error
  | cb_start_max_age_grace_timer_after_goaway_op =>
      start_max_age_grace_timer_after_goaway_op error
  | cb_close_max_age_channel => close_max_age_channel error
  | cb_force_close_max_age_channel => force_close_max_age_channel error
  end.

(** Modelled from the spec: running the closure stored in a closure field;
    nothing can be run from a field that was never initialised. *)
Definition run_closure (p : closure_ptr) (error : grpc_error) (w : world)
    : option world :=
  match get_closure p (chand w) with
  | closure_of cb =>
      Some (exec (emit (EvClosureRun p error) ;; run_callback cb error) w)
  | closure_uninit => None
  end.

Definition deadline_reached (deadline : gpr_timespec) (now : Z) : bool :=
  match deadline with
  | Finite d => d <=? now
  | Infinite => false
  end.

(** Modelled from the spec: a timer delivers Ok only once its deadline is
    reached; any other status can be delivered at any time. *)
Definition may_fire (status : grpc_error) (deadline : gpr_timespec)
    (now : Z) : bool :=
  if is_none status then deadline_reached deadline now else true.

Fixpoint remove_nth {A} (i : nat) (l : list A) : list A :=
  match l, i with
  | [], _ => []
  | _ :: l', O => l'
  | a :: l', S i' => a :: remove_nth i' l'
  end.

Inductive action :=
| ActTick (dt : Z)
| ActRunScheduled
| ActTimerFire (t : timer_ptr) (status : grpc_error)
| ActOpConsumed (i : nat) (status : grpc_error)
| ActDestroy.

(** Modelled from the spec: one move of the surroundings; [None] when the
    move is not possible in [w]. *)
Definition step (a : action) (w : world) : option world :=
  match a with
  | ActTick dt =>
      if 0 <=? dt then Some (set_clock (clock w + dt) w) else None
  | ActRunScheduled =>
      match exec_ctx w with
      | (p, error) :: rest => run_closure p error (set_exec_ctx rest w)
      | [] => None
      end
  | ActTimerFire t status =>
      match get_timer t w with
      | Some (deadline, p) =>
          if may_fire status deadline (clock w) then
            run_closure p status
              (log_event (EvTimerFired t status) (set_timer t None w))
          else None
      | None => None
      end
  | ActOpConsumed i status =>
      match nth_error (transport w) i with
      | Some op =>
          let w' := set_transport (remove_nth i (transport w)) w in
          match on_consumed op with
          | Some p => run_closure p status w'
          | None => Some w'
          end
      | None => None
      end
  | ActDestroy =>
      if destroyed w then None
      else Some (exec destroy_channel_elem
                      (log_event EvDestroy (set_destroyed true w)))
  end.

(** A move that is not possible leaves the world as it is. *)
Definition do_action (a : action) (w : world) : world :=
  match step a w with
  | Some w' => w'
  | None => w
  end.

Definition run (acts : list action) (w : world) : world :=
  fold_left (fun w a => do_action a w) acts w.

(** The world in which the constructor is called: [c] is the content of the
    memory handed to the filter for the fields of [channel_data] it reads and
    writes itself, nothing is scheduled or in flight, and the trace is empty.
    The two timers of a world are what the timer subsystem has pending for
    this channel, not the bytes of the two [grpc_timer] fields: the
    constructor never writes those fields, and before the first
    [grpc_timer_init] the subsystem has nothing pending. *)
Definition fresh_world (c : channel_data) (now : Z) : world :=
  {| chand := c; max_age_timer := None; max_age_grace_timer := None;
     stack_refs := 0; exec_ctx := []; transport := []; clock := now;
     destroyed := false; trace := [] |}.

(** The world right after the constructor returned. *)
Definition init_world (get_integer : grpc_arg -> grpc_integer_options -> Z)
    (c : channel_data) (now : Z) (args : grpc_channel_element_args) : world :=
  exec (init_channel_elem get_integer args) (fresh_world c now).

(** ** Reading traces *)

Definition is_goaway (e : event) : bool :=
  match e with
  | EvStartTransportOp _ _ op => negb (is_none (goaway_error op))
  | _ => false
  end.

Definition is_disconnect (e : event) : bool :=
  match e with
  | EvStartTransportOp _ _ op => negb (is_none (disconnect_with_error op))
  | _ => false
  end.

Definition is_transport_op (e : event) : bool :=
  match e with
  | EvStartTransportOp _ _ _ => true
  | _ => false
  end.

Definition is_timer_init (e : event) : bool :=
  match e with
  | EvTimerInit _ _ _ _ => true
  | _ => false
  end.

Definition is_grace_timer_init (e : event) : bool :=
  match e with
  | EvTimerInit p_max_age_grace_timer _ _ _ => true
  | _ => false
  end.

Definition is_closure_sched (e : event) : bool :=
  match e with
  | EvClosureSched _ _ => true
  | _ => false
  end.

Definition is_grace_fired_ok (e : event) : bool :=
  match e with
  | EvTimerFired p_max_age_grace_timer GRPC_ERROR_NONE => true
  | _ => false
  end.

Definition is_destroy (e : event) : bool :=
  match e with
  | EvDestroy => true
  | _ => false
  end.

Definition count (f : event -> bool) (l : list event) : nat :=
  List.length (filter f l).

(** On a trace kept newest first: every event satisfying [later] has an
    earlier event satisfying [earlier]. *)
Fixpoint preceded_by (earlier later : event -> bool) (tr : list event)
    : bool :=
  match tr with
  | [] => true
  | e :: older =>
      (if later e then existsb earlier older else true)
      && preceded_by earlier later older
  end.

(** On a trace kept newest first: the events that happened after the first
    teardown. *)
Fixpoint after_destroy (tr : list event) : list event :=
  match tr with
  | [] => []
  | e :: older =>
      if existsb is_destroy older then e :: after_destroy older else []
  end.

(** ** The constructor's loop, seen as a function on [channel_data] *)

(** The entry that decides a key: the loop runs over all entries, so the
    last one under the key wins. *)
Fixpoint last_arg (k : string) (l : list grpc_arg) : option grpc_arg :=
  match l with
  | [] => None
  | a :: l' =>
      match last_arg k l' with
      | Some a' => Some a'
      | None => if String.eqb (key a) k then Some a else None
      end
  end.

Definition age_options : grpc_integer_options :=
  {| default_value := DEFAULT_MAX_CONNECTION_AGE_S;
     min_value := 1; max_value := INT_MAX |}.

Definition grace_options : grpc_integer_options :=
  {| default_value := DEFAULT_MAX_CONNECTION_AGE_GRACE_S;
     min_value := 1; max_value := INT_MAX |}.

Definition duration_of (value : Z) : gpr_timespec :=
  if value =? INT_MAX then Infinite else Finite value.

Section ConstructorView.

Variable get_integer : grpc_arg -> grpc_integer_options -> Z.

(** What one turn of the constructor's loop does to [channel_data]. *)
Definition parse_arg (a : grpc_arg) (c : channel_data) : channel_data :=
  if String.eqb (key a) GPRC_ARG_MAX_CONNECION_AGE_S then
    set_max_connection_age (duration_of (get_integer a age_options)) c
  else if String.eqb (key a) GPRC_ARG_MAX_CONNECION_AGE_GRACE_S then
    set_max_connection_age_grace
      (duration_of (get_integer a grace_options)) c
  else c.

Definition parse_args (l : list grpc_arg) (c : channel_data)
    : channel_data :=
  fold_left (fun c a => parse_arg a c) l c.

(** [channel_data] as the constructor leaves it. *)
Definition constructed (args : grpc_channel_element_args)
    (c : channel_data) : channel_data :=
  set_closure p_start_max_age_grace_timer_after_goaway_op
    (closure_of cb_start_max_age_grace_timer_after_goaway_op)
    (set_closure p_start_max_age_timer_after_init
       (closure_of cb_start_max_age_timer_after_init)
       (set_closure p_force_close_max_age_channel
          (closure_of cb_force_close_max_age_channel)
          (set_closure p_close_max_age_channel
             (closure_of cb_close_max_age_channel)
             (parse_args (channel_args args)
                (set_max_connection_age Infinite
                   (set_max_connection_age Infinite
                      (set_channel_stack (args_channel_stack args)
                         (set_pending p_max_age_grace_timer false
                            (set_pending p_max_age_timer false c))))))))).

End ConstructorView.

(** ** The operations the filter builds *)

Definition goaway_op : grpc_transport_op :=
  {| on_consumed := Some p_start_max_age_grace_timer_after_goaway_op;
     goaway_error :=
       GRPC_ERROR_CREATED "max_age"
         [(GRPC_ERROR_INT_HTTP2_ERROR, GRPC_HTTP2_NO_ERROR)];
     disconnect_with_error := GRPC_ERROR_NONE |}.

Definition disconnect_op : grpc_transport_op :=
  {| on_consumed := None;
     goaway_error := GRPC_ERROR_NONE;
     disconnect_with_error :=
       GRPC_ERROR_CREATED "Channel reaches max age" [] |}.

(** ** Invariants of the running filter *)

(** The callback the constructor stores in each closure field. *)
Definition cb_of (p : closure_ptr) : callback :=
  match p with
  | p_close_max_age_channel => cb_close_max_age_channel
  | p_force_close_max_age_channel => cb_force_close_max_age_channel
  | p_start_max_age_timer_after_init => cb_start_max_age_timer_after_init
  | p_start_max_age_grace_timer_after_goaway_op =>
      cb_start_max_age_grace_timer_after_goaway_op
  end.

(** Who holds which closure: the scheduler only the start closure, an
    operation in flight only the grace-start closure, the age timer only the
    close closure and the grace timer only the force-close closure. *)
Definition wired (w : world) : Prop :=
  (forall p, get_closure p (chand w) = closure_of (cb_of p))
  /\ Forall (fun ce => fst ce = p_start_max_age_timer_after_init)
            (exec_ctx w)
  /\ Forall (fun op =>
              on_consumed op = None
              \/ on_consumed op
                 = Some p_start_max_age_grace_timer_after_goaway_op)
            (transport w)
  /\ (forall dl p, max_age_timer w = Some (dl, p) ->
                   p = p_close_max_age_channel)
  /\ (forall dl p, max_age_grace_timer w = Some (dl, p) ->
                   p = p_force_close_max_age_channel).

Definition has_continuation (op : grpc_transport_op) : bool :=
  match on_consumed op with
  | Some _ => true
  | None => false
  end.

Definition armed (t : grpc_timer) : nat :=
  match t with
  | Some _ => 1
  | None => 0
  end.

(** The filter walks through its stages once: start closure scheduled, age
    timer armed, goaway in flight, grace timer armed, disconnect dispatched.
    [tokens] counts how many of these are outstanding or done. *)
Definition tokens (w : world) : nat :=
  (List.length (exec_ctx w)
   + armed (max_age_timer w)
   + List.length (filter has_continuation (transport w))
   + armed (max_age_grace_timer w)
   + count is_disconnect (trace w))%nat.

Definition sequenced (w : world) : Prop :=
  (tokens w <= 1)%nat
  /\ ((0 < List.length (filter has_continuation (transport w))
           + armed (max_age_grace_timer w))%nat ->
      existsb is_goaway (trace w) = true)
  /\ preceded_by is_goaway is_grace_timer_init (trace w) = true
  /\ preceded_by is_grace_fired_ok is_disconnect (trace w) = true
  /\ preceded_by is_goaway is_disconnect (trace w) = true.

(** Nothing scheduled, armed or in flight, and no timer armed or operation
    dispatched so far. *)
Definition inert (w : world) : Prop :=
  exec_ctx w = []
  /\ max_age_timer w = None
  /\ max_age_grace_timer w = None
  /\ transport w = []
  /\ filter is_timer_init (trace w) = []
  /\ filter is_transport_op (trace w) = [].

(** ** Inputs used in examples *)

(** Zero-filled memory handed to the constructor for its [channel_data]. *)
Definition zeroed_channel_data : channel_data :=
  {| channel_stack := 0%nat;
     max_age_timer_pending := false;
     max_age_grace_timer_pending := false;
     max_connection_age := Finite 0;
     max_connection_age_grace := Finite 0;
     close_max_age_channel_closure := closure_uninit;
     force_close_max_age_channel_closure := closure_uninit;
     start_max_age_timer_after_init_closure := closure_uninit;
     start_max_age_grace_timer_after_goaway_op_closure := closure_uninit |}.

Definition no_args : grpc_channel_element_args :=
  {| args_channel_stack := 7%nat; channel_args := [] |}.

(** A maximum age of 5 seconds and a grace period of 2 seconds. *)
Definition age5_grace2 : grpc_channel_element_args :=
  {| args_channel_stack := 7%nat;
     channel_args :=
       [ {| key := GPRC_ARG_MAX_CONNECION_AGE_S; value_integer := 5 |};
         {| key := GPRC_ARG_MAX_CONNECION_AGE_GRACE_S;
            value_integer := 2 |} ] |}.

(** A run in which teardown happens while the age timer is pending and the
    timer's callback is then delivered with an Ok status. *)
Definition fire_after_teardown : list action :=
  [ActRunScheduled; ActTick 5; ActDestroy;
   ActTimerFire p_max_age_timer GRPC_ERROR_NONE].

(** How the spec says a configured number of seconds is stored. *)
Definition stored_as (v : Z) (d : gpr_timespec) : Prop :=
  (v < 1 -> d = Finite 1)
  /\ (v = INT_MAX -> d = Infinite)
  /\ (1 <= v < INT_MAX -> d = Finite v).

(** ** The moves of the surroundings on a wired world

    What [step] amounts to once every closure field holds its own callback:
    one constructor per way the surroundings can call into the filter. *)

Inductive move : world -> action -> world -> Prop :=
| move_tick w dt :
    0 <= dt ->
    move w (ActTick dt) (set_clock (clock w + dt) w)
| move_start w error rest :
    exec_ctx w = (p_start_max_age_timer_after_init, error) :: rest ->
    move w ActRunScheduled
      (exec (start_max_age_timer_after_init error)
         (log_event (EvClosureRun p_start_max_age_timer_after_init error)
            (set_exec_ctx rest w)))
| move_age_fire w deadline status :
    max_age_timer w = Some (deadline, p_close_max_age_channel) ->
    may_fire status deadline (clock w) = true ->
    move w (ActTimerFire p_max_age_timer status)
      (exec (close_max_age_channel status)
         (log_event (EvClosureRun p_close_max_age_channel status)
            (log_event (EvTimerFired p_max_age_timer status)
               (set_timer p_max_age_timer None w))))
| move_grace_fire w deadline status :
    max_age_grace_timer w = Some (deadline, p_force_close_max_age_channel) ->
    may_fire status deadline (clock w) = true ->
    move w (ActTimerFire p_max_age_grace_timer status)
      (exec (force_close_max_age_channel status)
         (log_event (EvClosureRun p_force_close_max_age_channel status)
            (log_event (EvTimerFired p_max_age_grace_timer status)
               (set_timer p_max_age_grace_timer None w))))
| move_op_dropped w i status op :
    nth_error (transport w) i = Some op ->
    on_consumed op = None ->
    move w (ActOpConsumed i status)
      (set_transport (remove_nth i (transport w)) w)
| move_op_continued w i status op :
    nth_error (transport w) i = Some op ->
    on_consumed op = Some p_start_max_age_grace_timer_after_goaway_op ->
    move w (ActOpConsumed i status)
      (exec (start_max_age_grace_timer_after_goaway_op status)
         (log_event
            (EvClosureRun p_start_max_age_grace_timer_after_goaway_op status)
            (set_transport (remove_nth i (transport w)) w)))
| move_destroy w :
    destroyed w = false ->
    move w ActDestroy
      (exec destroy_channel_elem
         (log_event EvDestroy (set_destroyed true w))).

(** ** Further readers and invariants *)

Definition is_age_timer_init (e : event) : bool :=
  match e with
  | EvTimerInit p_max_age_timer _ _ _ => true
  | _ => false
  end.

Definition is_armed (t : grpc_timer) : bool :=
  match t with
  | Some _ => true
  | None => false
  end.

(** Each stage is entered at most once, and only from the stage before it:
    the counts of age-timer armings, goaway operations, grace-timer armings
    and disconnect operations form a chain below 1, with what is still
    outstanding counted on the side it will move to. *)
Definition staged (w : world) : Prop :=
  (List.length (exec_ctx w) + count is_age_timer_init (trace w) <= 1)%nat
  /\ (armed (max_age_timer w) + count is_goaway (trace w)
      <= count is_age_timer_init (trace w))%nat
  /\ (List.length (filter has_continuation (transport w))
      + count is_grace_timer_init (trace w)
      <= count is_goaway (trace w))%nat
  /\ (armed (max_age_grace_timer w) + count is_disconnect (trace w)
      <= count is_grace_timer_init (trace w))%nat
  /\ count is_transport_op (trace w)
     = (count is_goaway (trace w) + count is_disconnect (trace w))%nat.

(** The filter's books: one reference to the stack per closure that is
    scheduled or waits on an operation, and a pending flag set exactly while
    its timer is armed. *)
Definition accounted (w : world) : Prop :=
  stack_refs w
  = Z.of_nat (List.length (exec_ctx w)
              + List.length (filter has_continuation (transport w)))
  /\ max_age_timer_pending (chand w) = is_armed (max_age_timer w)
  /\ max_age_grace_timer_pending (chand w)
     = is_armed (max_age_grace_timer w).

(** Nothing is left that could run a callback. *)
Definition drained (w : world) : Prop :=
  exec_ctx w = []
  /\ max_age_timer w = None
  /\ max_age_grace_timer w = None
  /\ filter has_continuation (transport w) = [].

(** The mutex along a trace kept newest first: [Some held] when every event
    respects the mutex, with [held] telling whether it is held at the end.
    Flags are written and timers armed or cancelled only while it is held;
    everything else happens only while it is free. *)
Fixpoint discipline (tr : list event) : option bool :=
  match tr with
  | [] => Some false
  | e :: older =>
      match discipline older with
      | None => None
      | Some held =>
          match e with
          | EvMuLock => if held then None else Some true
          | EvMuUnlock => if held then Some false else None
          | EvStorePending _ _ | EvTimerInit _ _ _ _ | EvTimerCancel _ =>
              if held then Some true else None
          | _ => if held then None else Some false
          end
      end
  end.

(** What every event of a run looks like, given the stack and the two
    durations the constructor stored. *)
Definition event_ok (stack : grpc_channel_stack) (age grace : gpr_timespec)
    (e : event) : Prop :=
  match e with
  | EvTimerInit p_max_age_timer deadline c now =>
      deadline = gpr_time_add now age /\ c = p_close_max_age_channel
  | EvTimerInit p_max_age_grace_timer deadline c now =>
      deadline = gpr_time_add now grace
      /\ c = p_force_close_max_age_channel
  | EvStartTransportOp s i op =>
      s = stack /\ i = 0%nat /\ (op = goaway_op \/ op = disconnect_op)
  | EvStackRef s _ | EvStackUnref s _ => s = stack
  | EvClosureSched c error =>
      c = p_start_max_age_timer_after_init /\ error = GRPC_ERROR_NONE
  | _ => True
  end.

(** The fields of [channel_data] that only the constructor writes. *)
Definition same_configuration (c c' : channel_data) : Prop :=
  channel_stack c' = channel_stack c
  /\ max_connection_age c' = max_connection_age c
  /\ max_connection_age_grace c' = max_connection_age_grace c
  /\ (forall p, get_closure p c' = get_closure p c).

(** The whole lifetime of a connection with maximum age [d] and grace [g],
    when nothing is cancelled. *)
Definition full_lifetime (d g : Z) : list action :=
  [ActRunScheduled; ActTick d;
   ActTimerFire p_max_age_timer GRPC_ERROR_NONE;
   ActOpConsumed 0 GRPC_ERROR_NONE; ActTick g;
   ActTimerFire p_max_age_grace_timer GRPC_ERROR_NONE].


(** A configuration that sets both keys twice and carries a foreign key. *)
Definition repeated_keys : grpc_channel_element_args :=
  {| args_channel_stack := 7%nat;
     channel_args :=
       [ {| key := GPRC_ARG_MAX_CONNECION_AGE_GRACE_S;
            value_integer := 9 |};
         {| key := GPRC_ARG_MAX_CONNECION_AGE_S; value_integer := 60 |};
         {| key := "grpc.other"; value_integer := 1 |};
         {| key := GPRC_ARG_MAX_CONNECION_AGE_S; value_integer := 5 |};
         {| key := GPRC_ARG_MAX_CONNECION_AGE_GRACE_S;
            value_integer := 2 |} ] |}.


(** * Properties *)

(** ** The constructor *)

Section Constructor.

Variable get_integer : grpc_arg -> grpc_integer_options -> Z.

Lemma set_chand_same (w : world) : set_chand (chand w) w = w.
Proof. destruct w; reflexivity. Qed.

(** A loop whose body only rewrites [channel_data] is a fold over it. *)
Lemma for_each_store (body : grpc_arg -> M unit)
    (f : grpc_arg -> channel_data -> channel_data) :
  (forall a w, body a w = (tt, set_chand (f a (chand w)) w)) ->
  forall l w,
    for_each l body w
    = (tt, set_chand (fold_left (fun c a => f a c) l (chand w)) w).
Proof.
  intros Hbody l; induction l as [|a l IH]; intro w.
  - cbn. now rewrite set_chand_same.
  - cbn [for_each fold_left]. unfold bind at 1.
    rewrite Hbody, IH. destruct w; reflexivity.
Qed.

(** The constructor always returns [GRPC_ERROR_NONE]; it leaves
    [channel_data] as [constructed] says and touches nothing else but the
    reference count, the scheduler's list and the trace. *)
Lemma init_channel_elem_eq (args : grpc_channel_element_args) (w : world) :
  init_channel_elem get_integer args w =
  (GRPC_ERROR_NONE,
   let c := constructed get_integer args (chand w) in
   match max_connection_age c with
   | Infinite =>
       {| chand := c; max_age_timer := max_age_timer w;
          max_age_grace_timer := max_age_grace_timer w;
          stack_refs := stack_refs w; exec_ctx := exec_ctx w;
          transport := transport w; clock := clock w;
          destroyed := destroyed w;
          trace := EvStorePending p_max_age_grace_timer false
                   :: EvStorePending p_max_age_timer false
                   :: EvMuInit :: trace w |}
   | Finite _ =>
       {| chand := c; max_age_timer := max_age_timer w;
          max_age_grace_timer := max_age_grace_timer w;
          stack_refs := stack_refs w + 1;
          exec_ctx := exec_ctx w
                      ++ [(p_start_max_age_timer_after_init,
                           GRPC_ERROR_NONE)];
          transport := transport w; clock := clock w;
          destroyed := destroyed w;
          trace := EvClosureSched p_start_max_age_timer_after_init
                                  GRPC_ERROR_NONE
                   :: EvStackRef (channel_stack c)
                        "max_age start_max_age_timer_after_init"
                   :: EvStorePending p_max_age_grace_timer false
                   :: EvStorePending p_max_age_timer false
                   :: EvMuInit :: trace w |}
   end).
Proof.
  unfold init_channel_elem.
  match goal with |- context [for_each _ ?b] => set (body := b) end.
  destruct w as [c tm tg refs ex tp ck ds tr].
  unfold bind, gpr_mu_init, store_pending, emit, store; cbn.
  rewrite (for_each_store body (parse_arg get_integer)).
  2:{ intros a w0. subst body. cbv beta. unfold parse_arg.
      destruct (String.eqb (key a) GPRC_ARG_MAX_CONNECION_AGE_S);
        [reflexivity|].
      destruct (String.eqb (key a) GPRC_ARG_MAX_CONNECION_AGE_GRACE_S);
        [reflexivity|].
      unfold ret. now rewrite set_chand_same. }
  clear body. unfold constructed, parse_args.
  cbn [chand set_chand log_event].
  change (gpr_inf_future GPR_TIMESPAN) with Infinite.
  generalize (fold_left (fun c0 a => parse_arg get_integer a c0)
                (channel_args args)
                (set_max_connection_age Infinite
                   (set_max_connection_age Infinite
                      (set_channel_stack (args_channel_stack args)
                         (set_pending p_max_age_grace_timer false
                            (set_pending p_max_age_timer false c)))))).
  intros [st pa pg [age|] grace c1 c2 c3 c4]; reflexivity.
Qed.

Lemma init_world_chand (c : channel_data) (now : Z)
    (args : grpc_channel_element_args) :
  chand (init_world get_integer c now args) = constructed get_integer args c.
Proof.
  unfold init_world, exec. rewrite init_channel_elem_eq. cbn.
  destruct (max_connection_age _); reflexivity.
Qed.

Lemma last_arg_none (k : string) (l : list grpc_arg) :
  last_arg k l = None <-> (forall a, In a l -> key a <> k).
Proof.
  induction l as [|a l IH]; cbn.
  - split; [intros _ a [] | reflexivity].
  - destruct (last_arg k l) as [a'|].
    + split; [discriminate|]. intro H.
      destruct IH as [_ IH]. discriminate IH. intros b Hb. apply H. now right.
    + destruct (String.eqb_spec (key a) k) as [E|E].
      * split; [discriminate|]. intro H. now elim (H a (or_introl eq_refl)).
      * split; [|reflexivity]. intros _ b [<-|Hb]; [exact E|].
        now apply IH.
Qed.

Lemma last_arg_app (k : string) (before after : list grpc_arg)
    (a : grpc_arg) :
  key a = k -> (forall b, In b after -> key b <> k) ->
  last_arg k (before ++ a :: after) = Some a.
Proof.
  intros Ha Hafter. apply last_arg_none in Hafter.
  induction before as [|b before IH]; cbn.
  - rewrite Hafter. subst k. now rewrite String.eqb_refl.
  - now rewrite IH.
Qed.

Lemma parse_args_age (l : list grpc_arg) (c : channel_data) :
  max_connection_age (parse_args get_integer l c) =
  match last_arg GPRC_ARG_MAX_CONNECION_AGE_S l with
  | Some a => duration_of (get_integer a age_options)
  | None => max_connection_age c
  end.
Proof.
  revert c; induction l as [|a l IH]; intro c; [reflexivity|].
  cbn [parse_args fold_left last_arg].
  fold (parse_args get_integer l (parse_arg get_integer a c)).
  rewrite IH.
  destruct (last_arg GPRC_ARG_MAX_CONNECION_AGE_S l); [reflexivity|].
  unfold parse_arg.
  destruct (String.eqb (key a) GPRC_ARG_MAX_CONNECION_AGE_S);
    [reflexivity|].
  destruct (String.eqb (key a) GPRC_ARG_MAX_CONNECION_AGE_GRACE_S);
    reflexivity.
Qed.

Lemma parse_args_grace (l : list grpc_arg) (c : channel_data) :
  max_connection_age_grace (parse_args get_integer l c) =
  match last_arg GPRC_ARG_MAX_CONNECION_AGE_GRACE_S l with
  | Some a => duration_of (get_integer a grace_options)
  | None => max_connection_age_grace c
  end.
Proof.
  revert c; induction l as [|a l IH]; intro c; [reflexivity|].
  cbn [parse_args fold_left last_arg].
  fold (parse_args get_integer l (parse_arg get_integer a c)).
  rewrite IH.
  destruct (last_arg GPRC_ARG_MAX_CONNECION_AGE_GRACE_S l); [reflexivity|].
  unfold parse_arg.
  destruct (String.eqb_spec (key a) GPRC_ARG_MAX_CONNECION_AGE_GRACE_S)
    as [E|E].
  - rewrite E. reflexivity.
  - destruct (String.eqb (key a) GPRC_ARG_MAX_CONNECION_AGE_S);
      reflexivity.
Qed.

Lemma parse_args_channel_stack (l : list grpc_arg) (c : channel_data) :
  channel_stack (parse_args get_integer l c) = channel_stack c.
Proof.
  revert c; induction l as [|a l IH]; intro c; [reflexivity|].
  cbn [parse_args fold_left].
  fold (parse_args get_integer l (parse_arg get_integer a c)).
  rewrite IH. unfold parse_arg.
  destruct (String.eqb (key a) GPRC_ARG_MAX_CONNECION_AGE_S);
    [reflexivity|].
  destruct (String.eqb (key a) GPRC_ARG_MAX_CONNECION_AGE_GRACE_S);
    reflexivity.
Qed.

Lemma constructed_age (args : grpc_channel_element_args)
    (c : channel_data) :
  max_connection_age (constructed get_integer args c) =
  match last_arg GPRC_ARG_MAX_CONNECION_AGE_S (channel_args args) with
  | Some a => duration_of (get_integer a age_options)
  | None => Infinite
  end.
Proof.
  unfold constructed. cbn [max_connection_age set_closure].
  now rewrite parse_args_age.
Qed.

Lemma constructed_grace (args : grpc_channel_element_args)
    (c : channel_data) :
  max_connection_age_grace (constructed get_integer args c) =
  match last_arg GPRC_ARG_MAX_CONNECION_AGE_GRACE_S (channel_args args) with
  | Some a => duration_of (get_integer a grace_options)
  | None => max_connection_age_grace c
  end.
Proof.
  unfold constructed. cbn [max_connection_age_grace set_closure].
  now rewrite parse_args_grace.
Qed.

Lemma constructed_channel_stack (args : grpc_channel_element_args)
    (c : channel_data) :
  channel_stack (constructed get_integer args c) = args_channel_stack args.
Proof.
  unfold constructed. cbn [channel_stack set_closure].
  now rewrite parse_args_channel_stack.
Qed.

End Constructor.

(** ** Configuration *)

Lemma duration_of_spec_value (a : grpc_arg) (default : Z) :
  stored_as (value_integer a)
    (duration_of
       (grpc_channel_arg_get_integer_spec a
          {| default_value := default; min_value := 1;
             max_value := INT_MAX |})).
Proof.
  unfold stored_as, duration_of, grpc_channel_arg_get_integer_spec.
  cbn [min_value max_value]. unfold INT_MAX.
  destruct (Z.ltb_spec (value_integer a) 1);
    [|destruct (Z.ltb_spec 2147483647 (value_integer a))];
    repeat match goal with
           | |- context [?x =? ?y] => destruct (Z.eqb_spec x y)
           end; repeat split; intros; try lia; try (f_equal; lia).
Qed.

(** C1 (the code at the failing input): the constructor, called on zero-filled
    memory with a configuration that has no grace-period entry, leaves
    [max_connection_age_grace] at the zero it found there and not at
    [Infinite]: the default for the grace period is never stored in that
    field. *)
Theorem grace_default_never_stored :
  last_arg GPRC_ARG_MAX_CONNECION_AGE_GRACE_S (channel_args no_args) = None
  /\ max_connection_age_grace
       (chand (init_world grpc_channel_arg_get_integer_spec
                          zeroed_channel_data 0 no_args)) = Finite 0
  /\ max_connection_age_grace
       (chand (init_world grpc_channel_arg_get_integer_spec
                          zeroed_channel_data 0 no_args)) <> Infinite.
Proof. repeat split; discriminate. Qed.

(** C8: under either key, with the argument reader as the spec describes it,
    the last configured integer is stored as follows: a value below 1 as 1
    second, the value [INT_MAX] as [Infinite], any other value from 1 up as
    that many seconds; and the constructor returns [GRPC_ERROR_NONE] for
    every configuration. *)
Theorem configured_seconds_stored (c : channel_data) (now : Z)
    (args : grpc_channel_element_args) :
  let w := init_world grpc_channel_arg_get_integer_spec c now args in
  (forall a,
      last_arg GPRC_ARG_MAX_CONNECION_AGE_S (channel_args args) = Some a ->
      stored_as (value_integer a) (max_connection_age (chand w)))
  /\ (forall a,
      last_arg GPRC_ARG_MAX_CONNECION_AGE_GRACE_S (channel_args args)
      = Some a ->
      stored_as (value_integer a) (max_connection_age_grace (chand w)))
  /\ (forall w0,
      fst (init_channel_elem grpc_channel_arg_get_integer_spec args w0)
      = GRPC_ERROR_NONE).
Proof.
  cbv zeta. rewrite init_world_chand. split; [|split].
  - intros a H. rewrite constructed_age, H. apply duration_of_spec_value.
  - intros a H. rewrite constructed_grace, H. apply duration_of_spec_value.
  - intro w0. now rewrite init_channel_elem_eq.
Qed.

Lemma configured_seconds_stored_witness :
  max_connection_age
    (chand (init_world grpc_channel_arg_get_integer_spec
                       zeroed_channel_data 0 age5_grace2)) = Finite 5
  /\ max_connection_age_grace
       (chand (init_world grpc_channel_arg_get_integer_spec
                          zeroed_channel_data 0 age5_grace2)) = Finite 2.
Proof.
  destruct (configured_seconds_stored zeroed_channel_data 0 age5_grace2)
    as [Hage [Hgrace _]].
  split.
  - destruct (Hage {| key := GPRC_ARG_MAX_CONNECION_AGE_S;
                      value_integer := 5 |} eq_refl) as [_ [_ H]].
    apply H. unfold INT_MAX. cbn [value_integer]. lia.
  - destruct (Hgrace {| key := GPRC_ARG_MAX_CONNECION_AGE_GRACE_S;
                        value_integer := 2 |} eq_refl) as [_ [_ H]].
    apply H. unfold INT_MAX. cbn [value_integer]. lia.
Defined.

Example below_minimum_and_sentinel :
  let init v :=
    chand (init_world grpc_channel_arg_get_integer_spec zeroed_channel_data 0
             {| args_channel_stack := 7%nat;
                channel_args :=
                  [ {| key := GPRC_ARG_MAX_CONNECION_AGE_S;
                       value_integer := v |};
                    {| key := GPRC_ARG_MAX_CONNECION_AGE_GRACE_S;
                       value_integer := v |} ] |}) in
  max_connection_age (init 0) = Finite 1
  /\ max_connection_age_grace (init (-3)) = Finite 1
  /\ max_connection_age (init INT_MAX) = Infinite
  /\ max_connection_age_grace (init INT_MAX) = Infinite
  /\ max_connection_age_grace (init 30) = Finite 30.
Proof. vm_compute. repeat split. Qed.

(** C9: both default constants are [INT_MAX], and both default assignments
    of the constructor go to [max_connection_age]: whatever the argument
    reader returns, a configuration without an entry under the age key leaves
    [max_connection_age] at [Infinite], and a configuration without an entry
    under the grace key leaves [max_connection_age_grace] as it was in the
    memory handed to the constructor, the field being written only in the
    branch for the grace key. *)
Theorem defaults_both_go_to_age
    (get_integer : grpc_arg -> grpc_integer_options -> Z)
    (c : channel_data) (now : Z) (args : grpc_channel_element_args) :
  let w := init_world get_integer c now args in
  DEFAULT_MAX_CONNECTION_AGE_S = INT_MAX
  /\ DEFAULT_MAX_CONNECTION_AGE_GRACE_S = INT_MAX
  /\ ((forall a, In a (channel_args args) ->
                 key a <> GPRC_ARG_MAX_CONNECION_AGE_S) ->
      max_connection_age (chand w) = Infinite)
  /\ ((forall a, In a (channel_args args) ->
                 key a <> GPRC_ARG_MAX_CONNECION_AGE_GRACE_S) ->
      max_connection_age_grace (chand w) = max_connection_age_grace c).
Proof.
  cbv zeta. rewrite init_world_chand. repeat split.
  - intro H. apply last_arg_none in H. now rewrite constructed_age, H.
  - intro H. apply last_arg_none in H. now rewrite constructed_grace, H.
Qed.

Lemma defaults_both_go_to_age_witness :
  max_connection_age
    (chand (init_world grpc_channel_arg_get_integer_spec
                       zeroed_channel_data 0 no_args)) = Infinite
  /\ max_connection_age_grace
       (chand (init_world grpc_channel_arg_get_integer_spec
                          zeroed_channel_data 0 no_args))
     = max_connection_age_grace zeroed_channel_data.
Proof.
  destruct (defaults_both_go_to_age grpc_channel_arg_get_integer_spec
              zeroed_channel_data 0 no_args) as [_ [_ [Hage Hgrace]]].
  split; [apply Hage | apply Hgrace]; intros a [].
Defined.

(** ** The per-call hooks *)

(** C10: the call-element constructor returns [GRPC_ERROR_NONE] and leaves
    the world as it was, and so does the call-element destructor. *)
Theorem call_hooks_change_nothing (elem : grpc_call_element)
    (args : grpc_call_element_args) (final_info : grpc_call_final_info)
    (ignored : option closure_ptr) (w : world) :
  init_call_elem elem args w = (GRPC_ERROR_NONE, w)
  /\ destroy_call_elem elem final_info ignored w = (tt, w).
Proof. split; reflexivity. Qed.

(** ** The four closures and the destructor, as world transformers *)

Lemma start_max_age_timer_after_init_eq (error : grpc_error) (w : world) :
  exec (start_max_age_timer_after_init error) w =
  {| chand := set_pending p_max_age_timer true (chand w);
     max_age_timer :=
       Some (gpr_time_add (Finite (clock w)) (max_connection_age (chand w)),
             p_close_max_age_channel);
     max_age_grace_timer := max_age_grace_timer w;
     stack_refs := stack_refs w - 1;
     exec_ctx := exec_ctx w; transport := transport w; clock := clock w;
     destroyed := destroyed w;
     trace :=
       EvStackUnref (channel_stack (chand w))
                    "max_age start_max_age_timer_after_init"
       :: EvMuUnlock
       :: EvTimerInit p_max_age_timer
            (gpr_time_add (Finite (clock w)) (max_connection_age (chand w)))
            p_close_max_age_channel (Finite (clock w))
       :: EvStorePending p_max_age_timer true
       :: EvMuLock :: trace w |}.
Proof. destruct w; reflexivity. Qed.

Lemma start_max_age_grace_timer_after_goaway_op_eq (error : grpc_error)
    (w : world) :
  exec (start_max_age_grace_timer_after_goaway_op error) w =
  {| chand := set_pending p_max_age_grace_timer true (chand w);
     max_age_timer := max_age_timer w;
     max_age_grace_timer :=
       Some (gpr_time_add (Finite (clock w))
                          (max_connection_age_grace (chand w)),
             p_force_close_max_age_channel);
     stack_refs := stack_refs w - 1;
     exec_ctx := exec_ctx w; transport := transport w; clock := clock w;
     destroyed := destroyed w;
     trace :=
       EvStackUnref (channel_stack (chand w))
                    "max_age start_max_age_grace_timer_after_goaway_op"
       :: EvMuUnlock
       :: EvTimerInit p_max_age_grace_timer
            (gpr_time_add (Finite (clock w))
                          (max_connection_age_grace (chand w)))
            p_force_close_max_age_channel (Finite (clock w))
       :: EvStorePending p_max_age_grace_timer true
       :: EvMuLock :: trace w |}.
Proof. destruct w; reflexivity. Qed.

Lemma close_max_age_channel_eq (error : grpc_error) (w : world) :
  exec (close_max_age_channel error) w =
  {| chand := set_pending p_max_age_timer false (chand w);
     max_age_timer := max_age_timer w;
     max_age_grace_timer := max_age_grace_timer w;
     stack_refs := if is_none error then stack_refs w + 1 else stack_refs w;
     exec_ctx := exec_ctx w;
     transport :=
       if is_none error then transport w ++ [goaway_op] else transport w;
     clock := clock w; destroyed := destroyed w;
     trace :=
       match error with
       | GRPC_ERROR_NONE =>
           [EvStartTransportOp (channel_stack (chand w)) 0 goaway_op;
            EvStackRef (channel_stack (chand w))
              "max_age start_max_age_grace_timer_after_goaway_op"]
       | GRPC_ERROR_CANCELLED => []
       | GRPC_ERROR_CREATED _ _ => [EvLog "close_max_age_channel" error]
       end
       ++ EvMuUnlock :: EvStorePending p_max_age_timer false
       :: EvMuLock :: trace w |}.
Proof. destruct w, error; reflexivity. Qed.

Lemma force_close_max_age_channel_eq (error : grpc_error) (w : world) :
  exec (force_close_max_age_channel error) w =
  {| chand := set_pending p_max_age_grace_timer false (chand w);
     max_age_timer := max_age_timer w;
     max_age_grace_timer := max_age_grace_timer w;
     stack_refs := stack_refs w;
     exec_ctx := exec_ctx w;
     transport :=
       if is_none error then transport w ++ [disconnect_op]
       else transport w;
     clock := clock w; destroyed := destroyed w;
     trace :=
       match error with
       | GRPC_ERROR_NONE =>
           [EvStartTransportOp (channel_stack (chand w)) 0 disconnect_op]
       | GRPC_ERROR_CANCELLED => []
       | GRPC_ERROR_CREATED _ _ =>
           [EvLog "force_close_max_age_channel" error]
       end
       ++ EvMuUnlock :: EvStorePending p_max_age_grace_timer false
       :: EvMuLock :: trace w |}.
Proof. destruct w, error; reflexivity. Qed.

Lemma destroy_channel_elem_eq (w : world) :
  exec destroy_channel_elem w =
  {| chand := chand w;
     max_age_timer := max_age_timer w;
     max_age_grace_timer := max_age_grace_timer w;
     stack_refs := stack_refs w; exec_ctx := exec_ctx w;
     transport := transport w; clock := clock w; destroyed := destroyed w;
     trace :=
       EvMuUnlock
       :: (if max_age_grace_timer_pending (chand w)
           then [EvTimerCancel p_max_age_grace_timer] else [])
       ++ (if max_age_timer_pending (chand w)
           then [EvTimerCancel p_max_age_timer] else [])
       ++ EvMuLock :: trace w |}.
Proof.
  destruct w as [[st [|] [|] age grace c1 c2 c3 c4] tm tg refs ex tp ck ds tr];
    reflexivity.
Qed.

(** ** Moves of the surroundings *)

(** Replaces the run of a callback by the world it produces. *)
Ltac callback_eq :=
  cbn [cb_of run_callback];
  rewrite ?start_max_age_timer_after_init_eq,
          ?start_max_age_grace_timer_after_goaway_op_eq,
          ?close_max_age_channel_eq, ?force_close_max_age_channel_eq.

(** Both pending flags, by cases. *)
Ltac by_flags w :=
  destruct (max_age_grace_timer_pending (chand w)),
           (max_age_timer_pending (chand w)).

Lemma run_closure_eq (w : world) (p : closure_ptr) (error : grpc_error) :
  (forall q, get_closure q (chand w) = closure_of (cb_of q)) ->
  run_closure p error w =
  Some (exec (run_callback (cb_of p) error)
             (log_event (EvClosureRun p error) w)).
Proof.
  intro Hc. unfold run_closure. now rewrite Hc.
Qed.

Lemma wired_closures (w : world) (p : closure_ptr) (error : grpc_error) :
  wired w ->
  run_closure p error w =
  Some (exec (run_callback (cb_of p) error)
             (log_event (EvClosureRun p error) w)).
Proof.
  intros (Hc & _). now apply run_closure_eq.
Qed.

Lemma run_callback_chand_closures (cb : callback) (error : grpc_error)
    (w : world) (p : closure_ptr) :
  get_closure p (chand (exec (run_callback cb error) w))
  = get_closure p (chand w).
Proof.
  destruct cb; cbn [run_callback].
  - rewrite start_max_age_timer_after_init_eq. now destruct p.
  - rewrite start_max_age_grace_timer_after_goaway_op_eq. now destruct p.
  - rewrite close_max_age_channel_eq. now destruct p.
  - rewrite force_close_max_age_channel_eq. now destruct p.
Qed.

Lemma Forall_remove_nth {A} (P : A -> Prop) (i : nat) (l : list A) :
  Forall P l -> Forall P (remove_nth i l).
Proof.
  intro H; revert i; induction H as [|a l Ha Hl IH]; intro i.
  - now destruct i.
  - destruct i; cbn; [assumption | constructor; auto].
Qed.

Lemma wired_run_closure (p : closure_ptr) (error : grpc_error)
    (w w' : world) :
  wired w -> run_closure p error w = Some w' -> wired w'.
Proof.
  intros HW Hs. rewrite (wired_closures _ _ _ HW) in Hs. injection Hs as <-.
  destruct HW as (Hc & Hex & Htp & Hta & Htg).
  split; [|split; [|split; [|split]]].
  - intro q. rewrite run_callback_chand_closures. apply Hc.
  - destruct p; callback_eq;
      exact Hex.
  - destruct p; callback_eq;
      cbn [transport log_event]; try exact Htp;
      destruct (is_none error); try exact Htp;
      apply Forall_app; (split; [exact Htp|]);
      constructor; cbn; auto.
  - destruct p; callback_eq;
      cbn [max_age_timer log_event]; try exact Hta.
    intros dl q [= _ <-]. reflexivity.
  - destruct p; callback_eq;
      cbn [max_age_grace_timer log_event]; try exact Htg.
    intros dl q [= _ <-]. reflexivity.
Qed.

Lemma wired_step (a : action) (w w' : world) :
  wired w -> step a w = Some w' -> wired w'.
Proof.
  intros HW Hs. destruct a; cbn [step] in Hs.
  - destruct (0 <=? dt); [|discriminate]. injection Hs as <-. exact HW.
  - destruct (exec_ctx w) as [|[p e] rest] eqn:Eex; [discriminate|].
    apply wired_run_closure in Hs; [exact Hs|].
    destruct HW as (Hc & Hex & Htp & Hta & Htg).
    rewrite Eex in Hex. inversion Hex; subst.
    repeat split; assumption.
  - destruct (get_timer t w) as [[dl p]|]; [|discriminate].
    destruct (may_fire status dl (clock w)); [|discriminate].
    apply wired_run_closure in Hs; [exact Hs|].
    destruct HW as (Hc & Hex & Htp & Hta & Htg).
    repeat split; try assumption; destruct t; cbn; try assumption;
      discriminate.
  - destruct (nth_error (transport w) i) as [op|]; [|discriminate].
    assert (HW' : wired (set_transport (remove_nth i (transport w)) w)).
    { destruct HW as (Hc & Hex & Htp & Hta & Htg).
      repeat split; try assumption. now apply Forall_remove_nth. }
    destruct (on_consumed op) as [p|].
    + now apply wired_run_closure in Hs.
    + now injection Hs as <-.
  - destruct (destroyed w); [discriminate|]. injection Hs as <-.
    rewrite destroy_channel_elem_eq.
    destruct HW as (Hc & Hex & Htp & Hta & Htg).
    repeat split; assumption.
Qed.

Lemma filter_remove_nth {A} (f : A -> bool) (i : nat) (l : list A) (a : A) :
  nth_error l i = Some a ->
  List.length (filter f l)
  = ((if f a then 1 else 0) + List.length (filter f (remove_nth i l)))%nat.
Proof.
  revert i; induction l as [|b l IH]; intros [|i] H; try discriminate.
  - injection H as ->. cbn. now destruct (f a).
  - cbn in H. specialize (IH _ H). cbn [remove_nth filter].
    destruct (f b); cbn [List.length]; lia.
Qed.

Lemma sequenced_step (a : action) (w w' : world) :
  wired w -> sequenced w -> step a w = Some w' -> sequenced w'.
Proof.
  intros HW HS Hs. pose proof HW as (Hc & Hex & Htp & Hta & Htg).
  destruct HS as (H1 & H2 & H3 & H4 & H5).
  destruct a; cbn [step] in Hs.
  - destruct (0 <=? dt); [|discriminate]. injection Hs as <-.
    repeat split; assumption.
  - destruct (exec_ctx w) as [|[p e] rest] eqn:Eex; [discriminate|].
    assert (p = p_start_max_age_timer_after_init) as ->
      by (now inversion Hex).
    rewrite run_closure_eq in Hs by exact Hc.
    injection Hs as <-. callback_eq.
    unfold sequenced, tokens, count in *. rewrite Eex in H1. cbn in *.
    repeat split; try assumption; lia.
  - destruct (get_timer t w) as [[dl p]|] eqn:Et; [|discriminate].
    destruct (may_fire status dl (clock w)); [|discriminate].
    rewrite run_closure_eq in Hs by exact Hc.
    injection Hs as <-.
    destruct t; cbn [get_timer] in Et.
    + rewrite (Hta _ _ Et). callback_eq.
      unfold sequenced, tokens, count in *. rewrite Et in H1.
      destruct status; cbn in *;
        rewrite ?filter_app, ?length_app in *; cbn in *;
        repeat split; try assumption; try reflexivity; try lia;
        intro; apply H2; lia.
    + rewrite (Htg _ _ Et). callback_eq.
      assert (Hg : existsb is_goaway (trace w) = true)
        by (apply H2; rewrite Et; cbn; lia).
      unfold sequenced, tokens, count in *. rewrite Et in H1.
      destruct status; cbn in *;
        rewrite ?filter_app, ?length_app in *; cbn in *;
        rewrite ?Hg;
        repeat split; try assumption; try reflexivity; try lia.
  - destruct (nth_error (transport w) i) as [op|] eqn:Eop; [|discriminate].
    pose proof (filter_remove_nth has_continuation _ _ _ Eop) as Hlen.
    assert (Hop : on_consumed op = None
                  \/ on_consumed op
                     = Some p_start_max_age_grace_timer_after_goaway_op).
    { rewrite Forall_forall in Htp. apply Htp.
      eapply nth_error_In; eassumption. }
    destruct Hop as [Hop|Hop];
      (replace (has_continuation op) with
         (match on_consumed op with Some _ => true | None => false end)
        in Hlen by reflexivity);
      rewrite Hop in Hs, Hlen.
    + injection Hs as <-.
      unfold sequenced, tokens, count in *. cbn in *.
      repeat split; try assumption; try lia.
      intro; apply H2; lia.
    + rewrite run_closure_eq in Hs by exact Hc.
      injection Hs as <-. callback_eq.
      assert (Hg : existsb is_goaway (trace w) = true) by (apply H2; lia).
      unfold sequenced, tokens, count in *. cbn in *. rewrite ?Hg.
      repeat split; try assumption; try reflexivity; try lia.
  - destruct (destroyed w); [discriminate|]. injection Hs as <-.
    rewrite destroy_channel_elem_eq.
    unfold sequenced, tokens, count in *. cbn in *.
    by_flags w; cbn;
      repeat split; assumption.
Qed.

Lemma inert_step (a : action) (w w' : world) :
  inert w -> step a w = Some w' -> inert w'.
Proof.
  intros (Hex & Hta & Htg & Htp & H1 & H2) Hs.
  destruct a; cbn [step] in Hs.
  - destruct (0 <=? dt); [|discriminate]. injection Hs as <-.
    repeat split; assumption.
  - now rewrite Hex in Hs.
  - destruct t; cbn [get_timer] in Hs; [rewrite Hta in Hs | rewrite Htg in Hs];
      discriminate.
  - rewrite Htp in Hs. now destruct i.
  - destruct (destroyed w); [discriminate|]. injection Hs as <-.
    rewrite destroy_channel_elem_eq. unfold inert. cbn.
    by_flags w; cbn;
      repeat split; assumption.
Qed.

(** A property kept by every possible move is kept by every run. *)
Lemma run_invariant (P : world -> Prop) :
  (forall a w w', P w -> step a w = Some w' -> P w') ->
  forall acts w, P w -> P (run acts w).
Proof.
  intros Hstep acts; induction acts as [|a acts IH]; intros w Hw;
    [exact Hw|].
  cbn [run fold_left]. apply IH. unfold do_action.
  destruct (step a w) eqn:E; [eapply Hstep; eassumption | exact Hw].
Qed.

Lemma run_app (acts acts' : list action) (w : world) :
  run (acts ++ acts') w = run acts' (run acts w).
Proof. apply fold_left_app. Qed.

Lemma wired_run (acts : list action) (w : world) :
  wired w -> wired (run acts w).
Proof. apply run_invariant. intros a w0 w'; apply wired_step. Qed.

Lemma sequenced_run (acts : list action) (w : world) :
  wired w -> sequenced w -> sequenced (run acts w).
Proof.
  intros HW HS.
  apply (run_invariant (fun w => wired w /\ sequenced w)); [|now split].
  intros a w0 w' [H1 H2] Hs; split;
    [eapply wired_step | eapply sequenced_step]; eassumption.
Qed.

Lemma inert_run (acts : list action) (w : world) :
  inert w -> inert (run acts w).
Proof. apply run_invariant. intros a w0 w'; apply inert_step. Qed.

(** ** The world the constructor leaves *)

Lemma wired_init (get_integer : grpc_arg -> grpc_integer_options -> Z)
    (c : channel_data) (now : Z) (args : grpc_channel_element_args) :
  wired (init_world get_integer c now args).
Proof.
  unfold init_world, exec. rewrite init_channel_elem_eq. cbn [snd].
  destruct (max_connection_age _);
    (split; [intros []; reflexivity|]); cbn;
    repeat split; try constructor; try discriminate; auto.
Qed.

Lemma sequenced_init (get_integer : grpc_arg -> grpc_integer_options -> Z)
    (c : channel_data) (now : Z) (args : grpc_channel_element_args) :
  sequenced (init_world get_integer c now args).
Proof.
  unfold init_world, exec. rewrite init_channel_elem_eq. cbn [snd].
  destruct (max_connection_age _); unfold sequenced, tokens, count; cbn;
    repeat split; try lia.
Qed.

Lemma inert_init (get_integer : grpc_arg -> grpc_integer_options -> Z)
    (c : channel_data) (now : Z) (args : grpc_channel_element_args) :
  max_connection_age (chand (init_world get_integer c now args)) = Infinite ->
  inert (init_world get_integer c now args).
Proof.
  rewrite init_world_chand. unfold init_world, exec.
  rewrite init_channel_elem_eq. cbn [snd chand fresh_world]. intros ->.
  repeat split.
Qed.

(** ** Reading [preceded_by] *)

Lemma preceded_by_spec (earlier later : event -> bool) (tr : list event) :
  preceded_by earlier later tr = true <->
  (forall newer e older,
      tr = newer ++ e :: older -> later e = true ->
      exists e', In e' older /\ earlier e' = true).
Proof.
  induction tr as [|x tr IH]; cbn [preceded_by].
  - split; [|reflexivity]. intros _ [|y newer] e older H; discriminate H.
  - rewrite andb_true_iff, IH. split.
    + intros [Hx Htr] [|y newer] e older H He.
      * injection H as <- <-. rewrite He in Hx.
        now apply existsb_exists in Hx.
      * injection H as <- ->. eapply Htr; [reflexivity | exact He].
    + intro H. split.
      * destruct (later x) eqn:Hx; [|reflexivity].
        apply existsb_exists. now apply (H [] x tr).
      * intros newer e older -> He. now apply (H (x :: newer) e older).
Qed.

(** ** The age timer's callback *)

(** C4: for every status, [close_max_age_channel] takes the mutex, clears
    [max_age_timer_pending] and releases the mutex; with status Cancelled it
    does nothing more; with status Ok it then takes one reference to the
    channel stack and starts, on element 0 of the stack, a transport operation
    whose goaway error carries [GRPC_HTTP2_NO_ERROR] and whose continuation
    is the closure that starts the grace timer; with any other status it then
    only logs. *)
Theorem close_max_age_channel_by_status (error : grpc_error) (w : world) :
  let w' := exec (close_max_age_channel error) w in
  chand w' = set_pending p_max_age_timer false (chand w)
  /\ max_age_timer_pending (chand w') = false
  /\ history w' =
     history w
     ++ [EvMuLock; EvStorePending p_max_age_timer false; EvMuUnlock]
     ++ match error with
        | GRPC_ERROR_NONE =>
            [EvStackRef (channel_stack (chand w))
               "max_age start_max_age_grace_timer_after_goaway_op";
             EvStartTransportOp (channel_stack (chand w)) 0 goaway_op]
        | GRPC_ERROR_CANCELLED => []
        | GRPC_ERROR_CREATED _ _ => [EvLog "close_max_age_channel" error]
        end
  /\ stack_refs w' = (if is_none error then stack_refs w + 1
                      else stack_refs w)
  /\ transport w' = (if is_none error then transport w ++ [goaway_op]
                     else transport w)
  /\ goaway_error goaway_op =
     grpc_error_set_int (GRPC_ERROR_CREATE_FROM_STATIC_STRING "max_age")
                        GRPC_ERROR_INT_HTTP2_ERROR GRPC_HTTP2_NO_ERROR
  /\ on_consumed goaway_op
     = Some p_start_max_age_grace_timer_after_goaway_op
  /\ exec_ctx w' = exec_ctx w
  /\ max_age_timer w' = max_age_timer w
  /\ max_age_grace_timer w' = max_age_grace_timer w.
Proof.
  cbv zeta. rewrite close_max_age_channel_eq. unfold history.
  cbn [chand stack_refs transport exec_ctx max_age_timer max_age_grace_timer
       trace].
  repeat split.
  destruct error; cbn; rewrite <- ?app_assoc; reflexivity.
Qed.

(** ** The grace timer's callback *)

(** C5: for every status, [force_close_max_age_channel] takes the mutex,
    clears [max_age_grace_timer_pending] and releases the mutex; with status
    Cancelled it does nothing more; with status Ok it then starts, on element
    0 of the stack, a transport operation that disconnects with an error,
    and takes no reference to the channel stack; with any other status it
    then only logs. *)
Theorem force_close_max_age_channel_by_status (error : grpc_error)
    (w : world) :
  let w' := exec (force_close_max_age_channel error) w in
  chand w' = set_pending p_max_age_grace_timer false (chand w)
  /\ max_age_grace_timer_pending (chand w') = false
  /\ history w' =
     history w
     ++ [EvMuLock; EvStorePending p_max_age_grace_timer false; EvMuUnlock]
     ++ match error with
        | GRPC_ERROR_NONE =>
            [EvStartTransportOp (channel_stack (chand w)) 0 disconnect_op]
        | GRPC_ERROR_CANCELLED => []
        | GRPC_ERROR_CREATED _ _ =>
            [EvLog "force_close_max_age_channel" error]
        end
  /\ stack_refs w' = stack_refs w
  /\ transport w' = (if is_none error then transport w ++ [disconnect_op]
                     else transport w)
  /\ disconnect_with_error disconnect_op =
     GRPC_ERROR_CREATE_FROM_STATIC_STRING "Channel reaches max age"
  /\ on_consumed disconnect_op = None
  /\ exec_ctx w' = exec_ctx w
  /\ max_age_timer w' = max_age_timer w
  /\ max_age_grace_timer w' = max_age_grace_timer w.
Proof.
  cbv zeta. rewrite force_close_max_age_channel_eq. unfold history.
  cbn [chand stack_refs transport exec_ctx max_age_timer max_age_grace_timer
       trace].
  repeat split.
  destruct error; cbn; rewrite <- ?app_assoc; reflexivity.
Qed.

(** ** Starting the age timer *)

Lemma init_world_finite (get_integer : grpc_arg -> grpc_integer_options -> Z)
    (c : channel_data) (now : Z) (args : grpc_channel_element_args) (d : Z) :
  max_connection_age (chand (init_world get_integer c now args)) = Finite d ->
  init_world get_integer c now args =
  {| chand := constructed get_integer args c;
     max_age_timer := None; max_age_grace_timer := None;
     stack_refs := 1;
     exec_ctx := [(p_start_max_age_timer_after_init, GRPC_ERROR_NONE)];
     transport := []; clock := now; destroyed := false;
     trace :=
       [EvClosureSched p_start_max_age_timer_after_init GRPC_ERROR_NONE;
        EvStackRef (args_channel_stack args)
                   "max_age start_max_age_timer_after_init";
        EvStorePending p_max_age_grace_timer false;
        EvStorePending p_max_age_timer false;
        EvMuInit] |}.
Proof.
  rewrite init_world_chand. unfold init_world, exec.
  rewrite init_channel_elem_eq. cbn [snd chand fresh_world]. intros ->.
  now rewrite constructed_channel_stack.
Qed.

(** C6: when the configured maximum age is finite, the constructor arms no
    timer; it takes one reference to the channel stack and schedules the
    closure holding [start_max_age_timer_after_init].  That callback, in any
    world in which the maximum age is still the finite [d], takes the mutex,
    sets [max_age_timer_pending], arms the age timer with deadline now + [d]
    and the close closure, releases the mutex, and only then drops one
    reference to the channel stack. *)
Theorem finite_age_defers_timer
    (get_integer : grpc_arg -> grpc_integer_options -> Z)
    (c : channel_data) (now : Z) (args : grpc_channel_element_args) (d : Z) :
  max_connection_age (chand (init_world get_integer c now args)) = Finite d ->
  let w := init_world get_integer c now args in
  (history w =
     [EvMuInit; EvStorePending p_max_age_timer false;
      EvStorePending p_max_age_grace_timer false;
      EvStackRef (args_channel_stack args)
                 "max_age start_max_age_timer_after_init";
      EvClosureSched p_start_max_age_timer_after_init GRPC_ERROR_NONE]
   /\ max_age_timer w = None
   /\ max_age_grace_timer w = None
   /\ stack_refs w = 1
   /\ exec_ctx w = [(p_start_max_age_timer_after_init, GRPC_ERROR_NONE)]
   /\ get_closure p_start_max_age_timer_after_init (chand w)
      = closure_of cb_start_max_age_timer_after_init)
  /\ (forall error w1,
        max_connection_age (chand w1) = Finite d ->
        let w2 := exec (start_max_age_timer_after_init error) w1 in
        history w2 =
          history w1
          ++ [EvMuLock; EvStorePending p_max_age_timer true;
              EvTimerInit p_max_age_timer (Finite (clock w1 + d))
                          p_close_max_age_channel (Finite (clock w1));
              EvMuUnlock;
              EvStackUnref (channel_stack (chand w1))
                           "max_age start_max_age_timer_after_init"]
        /\ max_age_timer_pending (chand w2) = true
        /\ max_age_timer w2
           = Some (Finite (clock w1 + d), p_close_max_age_channel)
        /\ stack_refs w2 = stack_refs w1 - 1).
Proof.
  intro Hd. cbv zeta. split.
  - rewrite (init_world_finite _ _ _ _ _ Hd). repeat split.
  - intros error w1 Hage. rewrite start_max_age_timer_after_init_eq.
    unfold history. cbn [chand trace max_age_timer stack_refs].
    rewrite Hage. cbn. rewrite <- ?app_assoc. repeat split.
Qed.

Lemma finite_age_defers_timer_witness :
  max_age_timer
    (init_world grpc_channel_arg_get_integer_spec zeroed_channel_data 100
                age5_grace2) = None
  /\ max_age_timer
       (exec (start_max_age_timer_after_init GRPC_ERROR_NONE)
             (init_world grpc_channel_arg_get_integer_spec
                         zeroed_channel_data 100 age5_grace2))
     = Some (Finite 105, p_close_max_age_channel).
Proof.
  destruct (finite_age_defers_timer grpc_channel_arg_get_integer_spec
              zeroed_channel_data 100 age5_grace2 5 eq_refl)
    as [(_ & Hnone & _) Hstart].
  split; [exact Hnone|].
  destruct (Hstart GRPC_ERROR_NONE
              (init_world grpc_channel_arg_get_integer_spec
                          zeroed_channel_data 100 age5_grace2)
              eq_refl) as (_ & _ & Harmed & _).
  vm_compute in Harmed. vm_compute. exact Harmed.
Defined.

(** ** An infinite maximum age *)

(** C2: when the maximum age stored by the constructor is [Infinite], the
    constructor schedules no closure, and in every run that follows no timer
    is armed and no transport operation is started. *)
Theorem infinite_age_is_inert
    (get_integer : grpc_arg -> grpc_integer_options -> Z)
    (c : channel_data) (now : Z) (args : grpc_channel_element_args)
    (acts : list action) :
  max_connection_age (chand (init_world get_integer c now args)) = Infinite ->
  let w0 := init_world get_integer c now args in
  let w := run acts w0 in
  exec_ctx w0 = []
  /\ filter is_closure_sched (trace w0) = []
  /\ filter is_timer_init (trace w) = []
  /\ filter is_transport_op (trace w) = []
  /\ max_age_timer w = None
  /\ max_age_grace_timer w = None.
Proof.
  intro Hinf. cbv zeta.
  pose proof (inert_run acts _ (inert_init _ _ _ _ Hinf))
    as (_ & Hta & Htg & _ & H1 & H2).
  destruct (inert_init _ _ _ _ Hinf) as (Hex & _).
  repeat split; try assumption.
  revert Hinf. rewrite init_world_chand. unfold init_world, exec.
  rewrite init_channel_elem_eq. cbn [snd chand fresh_world]. now intros ->.
Qed.

Lemma infinite_age_is_inert_witness :
  filter is_timer_init
    (trace (run [ActRunScheduled; ActTick 3;
                 ActTimerFire p_max_age_timer GRPC_ERROR_NONE; ActDestroy]
                (init_world grpc_channel_arg_get_integer_spec
                            zeroed_channel_data 0 no_args))) = []
  /\ filter is_transport_op
       (trace (run [ActRunScheduled; ActTick 3;
                    ActTimerFire p_max_age_timer GRPC_ERROR_NONE; ActDestroy]
                   (init_world grpc_channel_arg_get_integer_spec
                               zeroed_channel_data 0 no_args))) = [].
Proof.
  destruct (infinite_age_is_inert grpc_channel_arg_get_integer_spec
              zeroed_channel_data 0 no_args
              [ActRunScheduled; ActTick 3;
               ActTimerFire p_max_age_timer GRPC_ERROR_NONE; ActDestroy]
              eq_refl) as (_ & _ & H1 & H2 & _).
  split; assumption.
Defined.

(** ** The spec's scenario: a maximum age of 5 seconds, 2 seconds of grace *)

Example scenario_age5_grace2 :
  filter is_transport_op
    (history
       (run [ActRunScheduled; ActTick 5;
             ActTimerFire p_max_age_timer GRPC_ERROR_NONE;
             ActOpConsumed 0 GRPC_ERROR_NONE; ActTick 2;
             ActTimerFire p_max_age_grace_timer GRPC_ERROR_NONE]
            (init_world grpc_channel_arg_get_integer_spec
                        zeroed_channel_data 0 age5_grace2)))
  = [EvStartTransportOp 7%nat 0 goaway_op;
     EvStartTransportOp 7%nat 0 disconnect_op].
Proof. vm_compute. reflexivity. Qed.

Example scenario_teardown_during_grace :
  filter (fun e => is_transport_op e || is_timer_init e
                   || match e with EvTimerCancel _ => true | _ => false end)
    (history
       (run [ActRunScheduled; ActTick 5;
             ActTimerFire p_max_age_timer GRPC_ERROR_NONE;
             ActOpConsumed 0 GRPC_ERROR_NONE; ActTick 1; ActDestroy;
             ActTimerFire p_max_age_grace_timer GRPC_ERROR_CANCELLED]
            (init_world grpc_channel_arg_get_integer_spec
                        zeroed_channel_data 0 age5_grace2)))
  = [EvTimerInit p_max_age_timer (Finite 5) p_close_max_age_channel
                 (Finite 0);
     EvStartTransportOp 7%nat 0 goaway_op;
     EvTimerInit p_max_age_grace_timer (Finite 7)
                 p_force_close_max_age_channel (Finite 5);
     EvTimerCancel p_max_age_grace_timer].
Proof. vm_compute. reflexivity. Qed.

Example no_ok_before_the_deadline :
  step (ActTimerFire p_max_age_timer GRPC_ERROR_NONE)
       (run [ActRunScheduled; ActTick 4]
            (init_world grpc_channel_arg_get_integer_spec
                        zeroed_channel_data 0 age5_grace2)) = None.
Proof. vm_compute. reflexivity. Qed.

(** ** Order of the stages *)

(** C3: in every run that follows the constructor, each arming of the grace
    timer comes after a goaway operation was started; the disconnect operation
    is started at most once, each time after the grace timer fired with an Ok
    status, and each time after a goaway operation was started. *)
Theorem stages_in_order
    (get_integer : grpc_arg -> grpc_integer_options -> Z)
    (c : channel_data) (now : Z) (args : grpc_channel_element_args)
    (acts : list action) :
  let w := run acts (init_world get_integer c now args) in
  preceded_by is_goaway is_grace_timer_init (trace w) = true
  /\ (count is_disconnect (trace w) <= 1)%nat
  /\ preceded_by is_grace_fired_ok is_disconnect (trace w) = true
  /\ preceded_by is_goaway is_disconnect (trace w) = true.
Proof.
  cbv zeta.
  destruct (sequenced_run acts _ (wired_init get_integer c now args)
                          (sequenced_init get_integer c now args))
    as (H1 & _ & H3 & H4 & H5).
  repeat split; try assumption. unfold tokens in H1. lia.
Qed.

(** ** Teardown *)

(** C7 (the code at the failing input): the constructor is called with a
    maximum age of 5 seconds; the start closure runs, arms the age timer and
    drops the only reference the filter held, so no reference is held for
    the pending timer callback although the comment on [channel_stack] says
    one is taken for it; at the deadline teardown requests the cancellation,
    and the timer's callback, already on its way, is still delivered with an
    Ok status.  [close_max_age_channel] then takes a reference to the stack
    and starts a goaway operation on it: an operation is dispatched after
    teardown, where the claim says none ever is. *)
Lemma op_started_after_teardown :
  stack_refs
    (run [ActRunScheduled; ActTick 5]
         (init_world grpc_channel_arg_get_integer_spec zeroed_channel_data 0
                     age5_grace2)) = 0
  /\ filter is_transport_op
       (after_destroy
          (trace (run fire_after_teardown
                      (init_world grpc_channel_arg_get_integer_spec
                                  zeroed_channel_data 0 age5_grace2))))
     = [EvStartTransportOp 7%nat 0 goaway_op]
  /\ history (run fire_after_teardown
                  (init_world grpc_channel_arg_get_integer_spec
                              zeroed_channel_data 0 age5_grace2))
     = [EvMuInit; EvStorePending p_max_age_timer false;
        EvStorePending p_max_age_grace_timer false;
        EvStackRef 7%nat "max_age start_max_age_timer_after_init";
        EvClosureSched p_start_max_age_timer_after_init GRPC_ERROR_NONE;
        EvClosureRun p_start_max_age_timer_after_init GRPC_ERROR_NONE;
        EvMuLock; EvStorePending p_max_age_timer true;
        EvTimerInit p_max_age_timer (Finite 5) p_close_max_age_channel
                    (Finite 0);
        EvMuUnlock;
        EvStackUnref 7%nat "max_age start_max_age_timer_after_init";
        EvDestroy; EvMuLock; EvTimerCancel p_max_age_timer; EvMuUnlock;
        EvTimerFired p_max_age_timer GRPC_ERROR_NONE;
        EvClosureRun p_close_max_age_channel GRPC_ERROR_NONE;
        EvMuLock; EvStorePending p_max_age_timer false; EvMuUnlock;
        EvStackRef 7%nat "max_age start_max_age_grace_timer_after_goaway_op";
        EvStartTransportOp 7%nat 0 goaway_op].
Proof. vm_compute. repeat split. Qed.

(** * Further properties *)

(** ** Moves on a wired world *)

Lemma step_move (a : action) (w w' : world) :
  wired w -> step a w = Some w' -> move w a w'.
Proof.
  intros (Hc & Hex & Htp & Hta & Htg) Hs. destruct a; cbn [step] in Hs.
  - destruct (Z.leb_spec 0 dt); [|discriminate]. injection Hs as <-.
    now constructor.
  - destruct (exec_ctx w) as [|[p e] rest] eqn:Eex; [discriminate|].
    assert (p = p_start_max_age_timer_after_init) as ->
      by (now inversion Hex).
    rewrite run_closure_eq in Hs by exact Hc. injection Hs as <-.
    now apply move_start.
  - destruct (get_timer t w) as [[dl p]|] eqn:Et; [|discriminate].
    destruct (may_fire status dl (clock w)) eqn:Ef; [|discriminate].
    rewrite run_closure_eq in Hs by exact Hc. injection Hs as <-.
    destruct t; cbn [get_timer] in Et.
    + pose proof (Hta _ _ Et) as ->. eapply move_age_fire; eassumption.
    + pose proof (Htg _ _ Et) as ->. eapply move_grace_fire; eassumption.
  - destruct (nth_error (transport w) i) as [op|] eqn:Eop; [|discriminate].
    assert (Hop : on_consumed op = None
                  \/ on_consumed op
                     = Some p_start_max_age_grace_timer_after_goaway_op).
    { rewrite Forall_forall in Htp. apply Htp.
      eapply nth_error_In; eassumption. }
    destruct Hop as [Hop|Hop]; rewrite Hop in Hs.
    + injection Hs as <-. eapply move_op_dropped; eassumption.
    + rewrite run_closure_eq in Hs by exact Hc. injection Hs as <-.
      eapply move_op_continued; eassumption.
  - destruct (destroyed w) eqn:Ed; [discriminate|]. injection Hs as <-.
    now constructor.
Qed.

Lemma run_wired_invariant (P : world -> Prop) :
  (forall a w w', wired w -> P w -> move w a w' -> P w') ->
  forall acts w, wired w -> P w -> P (run acts w).
Proof.
  intros Hmove acts w HW HP.
  enough (wired (run acts w) /\ P (run acts w)) as [_ H] by exact H.
  apply (run_invariant (fun w => wired w /\ P w)); [|exact (conj HW HP)].
  intros a w0 w' [H1 H2] Hs. split; [eapply wired_step; eassumption|].
  eapply Hmove; [exact H1 | exact H2 | apply step_move; eassumption].
Qed.

Lemma has_continuation_of (op : grpc_transport_op) (o : option closure_ptr) :
  on_consumed op = o ->
  has_continuation op = match o with Some _ => true | None => false end.
Proof. intros <-. reflexivity. Qed.

(** ** Each stage at most once *)

Lemma staged_move (a : action) (w w' : world) :
  staged w -> move w a w' -> staged w'.
Proof.
  intros (H1 & H2 & H3 & H4 & H5) Hm.
  destruct Hm as [w dt Hdt | w e rest Hex | w dl status Ht Hf
                 | w dl status Ht Hf | w i status op Hop Hc
                 | w i status op Hop Hc | w Hd];
    try (pose proof (filter_remove_nth has_continuation _ _ _ Hop) as Hlen;
         rewrite (has_continuation_of _ _ Hc) in Hlen);
    callback_eq; try rewrite destroy_channel_elem_eq;
    unfold staged, count in *;
    try rewrite Hex in *; try rewrite Ht in *.
  - cbn. repeat split; assumption.
  - cbn in *. repeat split; lia.
  - destruct status; cbn in *; rewrite ?filter_app, ?length_app; cbn;
      repeat split; lia.
  - destruct status; cbn in *; rewrite ?filter_app, ?length_app; cbn;
      repeat split; lia.
  - cbn in *. repeat split; lia.
  - cbn in *. repeat split; lia.
  - cbn in *. by_flags w; cbn in *; repeat split; lia.
Qed.

Lemma staged_init (get_integer : grpc_arg -> grpc_integer_options -> Z)
    (c : channel_data) (now : Z) (args : grpc_channel_element_args) :
  staged (init_world get_integer c now args).
Proof.
  unfold init_world, exec. rewrite init_channel_elem_eq. cbn [snd].
  destruct (max_connection_age _); unfold staged, count; cbn;
    repeat split; lia.
Qed.

Lemma staged_run (get_integer : grpc_arg -> grpc_integer_options -> Z)
    (c : channel_data) (now : Z) (args : grpc_channel_element_args)
    (acts : list action) :
  staged (run acts (init_world get_integer c now args)).
Proof.
  apply run_wired_invariant; [|apply wired_init|apply staged_init].
  intros a w w' _. apply staged_move.
Qed.

(** ** References and pending flags *)

Lemma accounted_move (a : action) (w w' : world) :
  accounted w -> move w a w' -> accounted w'.
Proof.
  intros (H1 & H2 & H3) Hm.
  destruct Hm as [w dt Hdt | w e rest Hex | w dl status Ht Hf
                 | w dl status Ht Hf | w i status op Hop Hc
                 | w i status op Hop Hc | w Hd];
    try (pose proof (filter_remove_nth has_continuation _ _ _ Hop) as Hlen;
         rewrite (has_continuation_of _ _ Hc) in Hlen);
    callback_eq; try rewrite destroy_channel_elem_eq;
    unfold accounted in *;
    try rewrite Hex in *; try rewrite Ht in *; cbn in *.
  - repeat split; assumption.
  - repeat split; try assumption; lia.
  - destruct status; cbn; rewrite ?filter_app, ?length_app; cbn;
      repeat split; try assumption; lia.
  - destruct status; cbn; rewrite ?filter_app, ?length_app; cbn;
      repeat split; try assumption; lia.
  - repeat split; try assumption; lia.
  - repeat split; try assumption; lia.
  - repeat split; assumption.
Qed.

Lemma parse_args_eq (get_integer : grpc_arg -> grpc_integer_options -> Z)
    (l : list grpc_arg) (c : channel_data) :
  parse_args get_integer l c =
  {| channel_stack := channel_stack c;
     max_age_timer_pending := max_age_timer_pending c;
     max_age_grace_timer_pending := max_age_grace_timer_pending c;
     max_connection_age :=
       match last_arg GPRC_ARG_MAX_CONNECION_AGE_S l with
       | Some a => duration_of (get_integer a age_options)
       | None => max_connection_age c
       end;
     max_connection_age_grace :=
       match last_arg GPRC_ARG_MAX_CONNECION_AGE_GRACE_S l with
       | Some a => duration_of (get_integer a grace_options)
       | None => max_connection_age_grace c
       end;
     close_max_age_channel_closure := close_max_age_channel_closure c;
     force_close_max_age_channel_closure :=
       force_close_max_age_channel_closure c;
     start_max_age_timer_after_init_closure :=
       start_max_age_timer_after_init_closure c;
     start_max_age_grace_timer_after_goaway_op_closure :=
       start_max_age_grace_timer_after_goaway_op_closure c |}.
Proof.
  revert c; induction l as [|a l IH]; intro c; [now destruct c|].
  cbn [parse_args fold_left last_arg].
  fold (parse_args get_integer l (parse_arg get_integer a c)).
  rewrite IH. unfold parse_arg.
  destruct (last_arg GPRC_ARG_MAX_CONNECION_AGE_S l),
           (last_arg GPRC_ARG_MAX_CONNECION_AGE_GRACE_S l);
    destruct (String.eqb_spec (key a) GPRC_ARG_MAX_CONNECION_AGE_GRACE_S)
      as [E|E];
    try rewrite E; try reflexivity;
    destruct (String.eqb (key a) GPRC_ARG_MAX_CONNECION_AGE_S);
    reflexivity.
Qed.

(** Every field the constructor leaves, spelled out: only
    [max_connection_age_grace] can still show what the memory held. *)
Lemma constructed_eq (get_integer : grpc_arg -> grpc_integer_options -> Z)
    (args : grpc_channel_element_args) (c : channel_data) :
  constructed get_integer args c =
  {| channel_stack := args_channel_stack args;
     max_age_timer_pending := false;
     max_age_grace_timer_pending := false;
     max_connection_age :=
       match last_arg GPRC_ARG_MAX_CONNECION_AGE_S (channel_args args) with
       | Some a => duration_of (get_integer a age_options)
       | None => Infinite
       end;
     max_connection_age_grace :=
       match last_arg GPRC_ARG_MAX_CONNECION_AGE_GRACE_S (channel_args args)
       with
       | Some a => duration_of (get_integer a grace_options)
       | None => max_connection_age_grace c
       end;
     close_max_age_channel_closure := closure_of cb_close_max_age_channel;
     force_close_max_age_channel_closure :=
       closure_of cb_force_close_max_age_channel;
     start_max_age_timer_after_init_closure :=
       closure_of cb_start_max_age_timer_after_init;
     start_max_age_grace_timer_after_goaway_op_closure :=
       closure_of cb_start_max_age_grace_timer_after_goaway_op |}.
Proof. unfold constructed. rewrite parse_args_eq. reflexivity. Qed.

Lemma accounted_init (get_integer : grpc_arg -> grpc_integer_options -> Z)
    (c : channel_data) (now : Z) (args : grpc_channel_element_args) :
  accounted (init_world get_integer c now args).
Proof.
  unfold init_world, exec. rewrite init_channel_elem_eq.
  cbn [snd chand fresh_world]. rewrite constructed_eq.
  cbn [max_connection_age].
  destruct (match last_arg _ _ with Some _ => _ | None => _ end);
    unfold accounted; cbn; repeat split.
Qed.

Lemma accounted_run (get_integer : grpc_arg -> grpc_integer_options -> Z)
    (c : channel_data) (now : Z) (args : grpc_channel_element_args)
    (acts : list action) :
  accounted (run acts (init_world get_integer c now args)).
Proof.
  apply run_wired_invariant; [|apply wired_init|apply accounted_init].
  intros a w w' _. apply accounted_move.
Qed.

(** ** What only the constructor writes *)

Lemma same_configuration_move (a : action) (w w' : world) :
  move w a w' -> same_configuration (chand w) (chand w').
Proof.
  intro Hm.
  destruct Hm; callback_eq; try rewrite destroy_channel_elem_eq;
    cbn [chand set_clock set_transport log_event set_exec_ctx set_timer
         set_destroyed];
    unfold same_configuration; repeat split; try (intros []; reflexivity).
Qed.

Lemma same_configuration_trans (c1 c2 c3 : channel_data) :
  same_configuration c1 c2 -> same_configuration c2 c3 ->
  same_configuration c1 c3.
Proof.
  intros (A1 & A2 & A3 & A4) (B1 & B2 & B3 & B4).
  repeat split; try congruence.
Qed.

Lemma same_configuration_run (acts : list action) (w : world) :
  wired w -> same_configuration (chand w) (chand (run acts w)).
Proof.
  intro HW.
  apply (run_wired_invariant
           (fun w' => same_configuration (chand w) (chand w')));
    [|exact HW|now repeat split].
  intros a w1 w2 _ H Hm.
  eapply same_configuration_trans; [exact H|].
  eapply same_configuration_move; eassumption.
Qed.

(** ** What the events of a run look like *)

Lemma events_ok_move (c0 : channel_data) (a : action) (w w' : world) :
  same_configuration c0 (chand w) ->
  Forall (event_ok (channel_stack c0) (max_connection_age c0)
                   (max_connection_age_grace c0)) (trace w) ->
  move w a w' ->
  Forall (event_ok (channel_stack c0) (max_connection_age c0)
                   (max_connection_age_grace c0)) (trace w').
Proof.
  intros (E1 & E2 & E3 & _) HF Hm.
  destruct Hm as [w dt Hdt | w e rest Hex | w dl status Ht Hf
                 | w dl status Ht Hf | w i status op Hop Hc
                 | w i status op Hop Hc | w Hd];
    callback_eq; try rewrite destroy_channel_elem_eq;
    cbn [trace chand clock set_clock set_transport log_event set_exec_ctx
         set_timer set_destroyed];
    try exact HF.
  - rewrite E1, E2.
    repeat (apply Forall_cons; [cbn; auto|]). exact HF.
  - rewrite E1. destruct status; cbn [app];
      repeat (apply Forall_cons; [cbn; auto|]); exact HF.
  - rewrite E1. destruct status; cbn [app];
      repeat (apply Forall_cons; [cbn; auto|]); exact HF.
  - rewrite E1, E3.
    repeat (apply Forall_cons; [cbn; auto|]). exact HF.
  - by_flags w; cbn [app];
      repeat (apply Forall_cons; [cbn; auto|]); exact HF.
Qed.

Lemma events_ok_init (get_integer : grpc_arg -> grpc_integer_options -> Z)
    (c : channel_data) (now : Z) (args : grpc_channel_element_args) :
  let c0 := chand (init_world get_integer c now args) in
  Forall (event_ok (channel_stack c0) (max_connection_age c0)
                   (max_connection_age_grace c0))
         (trace (init_world get_integer c now args)).
Proof.
  cbv zeta. rewrite init_world_chand. unfold init_world, exec.
  rewrite init_channel_elem_eq. cbn [snd chand fresh_world].
  destruct (max_connection_age _); cbn [trace fresh_world];
    repeat (apply Forall_cons; [cbn; auto|]); constructor.
Qed.

(** ** The mutex *)

Lemma discipline_app (newer older : list event) :
  discipline older = Some false ->
  discipline (newer ++ older) = discipline newer.
Proof.
  intro H. induction newer as [|e newer IH]; [exact H|].
  cbn [app discipline]. now rewrite IH.
Qed.

(** The list [l] without its tail [t]. *)
Ltac prefix_of l t :=
  lazymatch l with
  | t => constr:(@nil event)
  | ?e :: ?l' => let r := prefix_of l' t in constr:(e :: r)
  end.

Ltac give_prefix :=
  lazymatch goal with
  | |- exists ev, ?l = ev ++ ?t /\ _ =>
      let ev := prefix_of l t in
      exists ev; split; reflexivity
  end.

Lemma discipline_move (a : action) (w w' : world) :
  move w a w' ->
  exists ev, trace w' = ev ++ trace w /\ discipline ev = Some false.
Proof.
  intro Hm.
  destruct Hm as [w dt Hdt | w e rest Hex | w dl status Ht Hf
                 | w dl status Ht Hf | w i status op Hop Hc
                 | w i status op Hop Hc | w Hd];
    callback_eq; try rewrite destroy_channel_elem_eq;
    cbn [trace chand clock set_clock set_transport log_event set_exec_ctx
         set_timer set_destroyed];
    try (exists []; split; reflexivity);
    try give_prefix.
  - destruct status; cbn [app]; give_prefix.
  - destruct status; cbn [app]; give_prefix.
  - by_flags w; cbn [app]; give_prefix.
Qed.

(** ** When nothing is left to run *)

Lemma drained_move (a : action) (w w' : world) :
  drained w -> move w a w' ->
  drained w'
  /\ filter is_transport_op (trace w') = filter is_transport_op (trace w)
  /\ filter is_timer_init (trace w') = filter is_timer_init (trace w).
Proof.
  intros (Hex0 & Hta & Htg & Htp) Hm.
  destruct Hm as [w dt Hdt | w e rest Hex | w dl status Ht Hf
                 | w dl status Ht Hf | w i status op Hop Hc
                 | w i status op Hop Hc | w Hd];
    try congruence;
    try (pose proof (filter_remove_nth has_continuation _ _ _ Hop) as Hlen;
         rewrite (has_continuation_of _ _ Hc), Htp in Hlen;
         cbn in Hlen; try discriminate Hlen).
  - repeat split; assumption.
  - repeat split; try assumption. cbn [transport set_transport].
    symmetry in Hlen. now apply length_zero_iff_nil in Hlen.
  - rewrite destroy_channel_elem_eq. unfold drained. cbn.
    by_flags w; cbn; repeat split; assumption.
Qed.

Lemma drained_run (acts : list action) (w : world) :
  wired w -> drained w ->
  drained (run acts w)
  /\ filter is_transport_op (trace (run acts w))
     = filter is_transport_op (trace w)
  /\ filter is_timer_init (trace (run acts w))
     = filter is_timer_init (trace w).
Proof.
  intros HW HD.
  apply (run_wired_invariant
           (fun w' => drained w'
                      /\ filter is_transport_op (trace w')
                         = filter is_transport_op (trace w)
                      /\ filter is_timer_init (trace w')
                         = filter is_timer_init (trace w)));
    [|exact HW|split; [exact HD|split; reflexivity]].
  intros a w1 w2 _ (H1 & H2 & H3) Hm.
  destruct (drained_move _ _ _ H1 Hm) as (K1 & K2 & K3).
  split; [exact K1|split; congruence].
Qed.

(** ** Further properties of runs *)

(** X1: [start_max_age_grace_timer_after_goaway_op] does the same whatever
    error the finished goaway operation reports: it takes the mutex, sets
    [max_age_grace_timer_pending], arms the grace timer with deadline
    now + [max_connection_age_grace] and the force-close closure, releases
    the mutex and then drops one reference to the channel stack. *)
Theorem grace_timer_started_whatever_the_error (error : grpc_error)
    (w : world) :
  let w' := exec (start_max_age_grace_timer_after_goaway_op error) w in
  let deadline :=
    gpr_time_add (Finite (clock w)) (max_connection_age_grace (chand w)) in
  history w' =
    history w
    ++ [EvMuLock; EvStorePending p_max_age_grace_timer true;
        EvTimerInit p_max_age_grace_timer deadline
                    p_force_close_max_age_channel (Finite (clock w));
        EvMuUnlock;
        EvStackUnref (channel_stack (chand w))
                     "max_age start_max_age_grace_timer_after_goaway_op"]
  /\ chand w' = set_pending p_max_age_grace_timer true (chand w)
  /\ max_age_grace_timer w' = Some (deadline, p_force_close_max_age_channel)
  /\ stack_refs w' = stack_refs w - 1
  /\ max_age_timer w' = max_age_timer w
  /\ exec_ctx w' = exec_ctx w
  /\ transport w' = transport w
  /\ (forall error',
        exec (start_max_age_grace_timer_after_goaway_op error') w = w').
Proof.
  cbv zeta. rewrite start_max_age_grace_timer_after_goaway_op_eq.
  unfold history. cbn [trace chand max_age_grace_timer stack_refs
                       max_age_timer exec_ctx transport].
  split; [cbn; rewrite <- !app_assoc; reflexivity|].
  repeat split.
Qed.

(** X2: in every run that follows the constructor, the references the filter
    holds on the channel stack are exactly one per closure that is scheduled
    or waits on a transport operation; the filter never holds more than one
    and never drops one it did not take. *)
Theorem references_balanced
    (get_integer : grpc_arg -> grpc_integer_options -> Z)
    (c : channel_data) (now : Z) (args : grpc_channel_element_args)
    (acts : list action) :
  let w := run acts (init_world get_integer c now args) in
  stack_refs w
  = Z.of_nat (List.length (exec_ctx w)
              + List.length (filter has_continuation (transport w)))
  /\ 0 <= stack_refs w <= 1.
Proof.
  cbv zeta.
  destruct (accounted_run get_integer c now args acts) as (H & _).
  destruct (staged_run get_integer c now args acts) as (S1 & S2 & S3 & _).
  split; [exact H|]. rewrite H. lia.
Qed.


(** X4: in every run that follows the constructor, the age timer is armed at
    most once, and there are no more goaway operations than age-timer
    armings, no more grace-timer armings than goaway operations and no more
    disconnect operations than grace-timer armings; the filter starts no
    transport operation other than these. *)
Theorem each_stage_at_most_once
    (get_integer : grpc_arg -> grpc_integer_options -> Z)
    (c : channel_data) (now : Z) (args : grpc_channel_element_args)
    (acts : list action) :
  let tr := trace (run acts (init_world get_integer c now args)) in
  (count is_disconnect tr <= count is_grace_timer_init tr)%nat
  /\ (count is_grace_timer_init tr <= count is_goaway tr)%nat
  /\ (count is_goaway tr <= count is_age_timer_init tr)%nat
  /\ (count is_age_timer_init tr <= 1)%nat
  /\ count is_transport_op tr
     = (count is_goaway tr + count is_disconnect tr)%nat.
Proof.
  cbv zeta.
  destruct (staged_run get_integer c now args acts)
    as (S1 & S2 & S3 & S4 & S5).
  repeat split; try assumption; lia.
Qed.

(** X5: in every run, the events that follow the constructor respect the
    mutex: a pending flag is written and a timer armed or cancelled only
    while the mutex is held, references are taken or dropped, operations
    started and errors logged only while it is free, it is never taken
    twice, and every callback and the destructor leave it free. *)
Theorem mutex_respected
    (get_integer : grpc_arg -> grpc_integer_options -> Z)
    (c : channel_data) (now : Z) (args : grpc_channel_element_args)
    (acts : list action) :
  exists new,
    trace (run acts (init_world get_integer c now args))
    = new ++ trace (init_world get_integer c now args)
    /\ discipline new = Some false.
Proof.
  apply (run_wired_invariant
           (fun w => exists new,
                trace w = new ++ trace (init_world get_integer c now args)
                /\ discipline new = Some false));
    [|apply wired_init|exists []; split; reflexivity].
  intros a w w' _ (new & Htr & Hd) Hm.
  destruct (discipline_move _ _ _ Hm) as (ev & Hev & Hdev).
  exists (ev ++ new). split.
  - now rewrite Hev, Htr, app_assoc.
  - now rewrite discipline_app.
Qed.

Lemma count_zero_filter (f : event -> bool) (l : list event) :
  count f l = 0%nat -> filter f l = [].
Proof. apply length_zero_iff_nil. Qed.

Lemma run_cons_step (a : action) (acts : list action) (w w' : world) :
  step a w = Some w' -> run (a :: acts) w = run acts w'.
Proof. intro H. cbn [run fold_left]. unfold do_action. now rewrite H. Qed.

Lemma age_fire_inv (w w1 : world) (status : grpc_error) :
  wired w -> step (ActTimerFire p_max_age_timer status) w = Some w1 ->
  armed (max_age_timer w) = 1%nat
  /\ w1 = exec (close_max_age_channel status)
            (log_event (EvClosureRun p_close_max_age_channel status)
               (log_event (EvTimerFired p_max_age_timer status)
                  (set_timer p_max_age_timer None w))).
Proof.
  intros HW Hs. pose proof (step_move _ _ _ HW Hs) as Hm.
  inversion Hm as [| |w' dl st Ht Hf| | | |]; subst.
  rewrite Ht. now split.
Qed.

Lemma grace_fire_inv (w w1 : world) (status : grpc_error) :
  wired w -> step (ActTimerFire p_max_age_grace_timer status) w = Some w1 ->
  armed (max_age_grace_timer w) = 1%nat
  /\ w1 = exec (force_close_max_age_channel status)
            (log_event (EvClosureRun p_force_close_max_age_channel status)
               (log_event (EvTimerFired p_max_age_grace_timer status)
                  (set_timer p_max_age_grace_timer None w))).
Proof.
  intros HW Hs. pose proof (step_move _ _ _ HW Hs) as Hm.
  inversion Hm as [| | |w' dl st Ht Hf| | |]; subst.
  rewrite Ht. now split.
Qed.

(** X6: if the age timer's callback is delivered with a status other than
    Ok, the filter is finished: in that run and in every continuation of it
    no transport operation is ever started and the grace timer is never
    armed. *)
Theorem age_timer_failure_ends_filter
    (get_integer : grpc_arg -> grpc_integer_options -> Z)
    (c : channel_data) (now : Z) (args : grpc_channel_element_args)
    (before after : list action) (status : grpc_error) (w1 : world) :
  is_none status = false ->
  step (ActTimerFire p_max_age_timer status)
       (run before (init_world get_integer c now args)) = Some w1 ->
  let w2 := run after w1 in
  filter is_transport_op (trace w2) = []
  /\ filter is_grace_timer_init (trace w2) = []
  /\ max_age_grace_timer w2 = None.
Proof.
  intros Hstatus Hstep. cbv zeta.
  set (w0 := init_world get_integer c now args) in *.
  set (w := run before w0) in *.
  assert (HW : wired w) by apply wired_run, wired_init.
  pose proof (staged_run get_integer c now args before)
    as (S1 & S2 & S3 & S4 & S5). fold w0 w in S1, S2, S3, S4, S5.
  destruct (age_fire_inv _ _ _ HW Hstep) as [Harmed Hw1].
  assert (HW1 : wired w1) by (eapply wired_step; eassumption).
  assert (Hall : run after w1
                 = run (before ++ ActTimerFire p_max_age_timer status
                               :: after) w0).
  { rewrite run_app. fold w. now rewrite (run_cons_step _ _ _ _ Hstep). }
  pose proof (staged_run get_integer c now args
                (before ++ ActTimerFire p_max_age_timer status :: after))
    as (T1 & T2 & T3 & T4 & T5). fold w0 in T1, T2, T3, T4, T5.
  rewrite <- Hall in T1, T2, T3, T4, T5.
  rewrite Harmed in S2.
  assert (Hd1 : drained w1 /\ filter is_transport_op (trace w1) = []).
  { rewrite Hw1. callback_eq. unfold drained.
    cbn [exec_ctx max_age_timer max_age_grace_timer transport trace
         log_event set_timer].
    destruct status; [discriminate Hstatus| |]; cbn;
      (repeat split;
       [apply length_zero_iff_nil; lia
       |destruct (max_age_grace_timer w); [cbn in S4; lia|reflexivity]
       |apply length_zero_iff_nil; lia
       |apply count_zero_filter; lia]). }
  destruct Hd1 as [Hd1 Hops].
  destruct (drained_run after w1 HW1 Hd1) as ((_ & _ & Hg & _) & K2 & _).
  rewrite Hops in K2.
  repeat split; try assumption.
  apply count_zero_filter. unfold count in *. rewrite K2 in T5. cbn in T5.
  lia.
Qed.

Lemma age_timer_failure_ends_filter_witness :
  filter is_transport_op
    (trace (run [ActTick 9; ActOpConsumed 0 GRPC_ERROR_NONE; ActDestroy]
              (run [ActRunScheduled; ActDestroy;
                    ActTimerFire p_max_age_timer GRPC_ERROR_CANCELLED]
                 (init_world grpc_channel_arg_get_integer_spec
                             zeroed_channel_data 0 age5_grace2)))) = [].
Proof.
  apply (age_timer_failure_ends_filter grpc_channel_arg_get_integer_spec
           zeroed_channel_data 0 age5_grace2 [ActRunScheduled; ActDestroy]
           [ActTick 9; ActOpConsumed 0 GRPC_ERROR_NONE; ActDestroy]
           GRPC_ERROR_CANCELLED); vm_compute; reflexivity.
Defined.

(** X7: if the grace timer's callback is delivered with a status other than
    Ok, the disconnect operation is never started, in that run or in any
    continuation of it; the goaway operation stays the only transport
    operation the filter has started. *)
Theorem grace_timer_failure_leaves_connection
    (get_integer : grpc_arg -> grpc_integer_options -> Z)
    (c : channel_data) (now : Z) (args : grpc_channel_element_args)
    (before after : list action) (status : grpc_error) (w1 : world) :
  is_none status = false ->
  step (ActTimerFire p_max_age_grace_timer status)
       (run before (init_world get_integer c now args)) = Some w1 ->
  let w2 := run after w1 in
  filter is_disconnect (trace w2) = []
  /\ count is_goaway (trace w2) = 1%nat
  /\ count is_transport_op (trace w2) = 1%nat
  /\ max_age_timer w2 = None
  /\ max_age_grace_timer w2 = None.
Proof.
  intros Hstatus Hstep. cbv zeta.
  set (w0 := init_world get_integer c now args) in *.
  set (w := run before w0) in *.
  assert (HW : wired w) by apply wired_run, wired_init.
  pose proof (staged_run get_integer c now args before)
    as (S1 & S2 & S3 & S4 & S5). fold w0 w in S1, S2, S3, S4, S5.
  destruct (grace_fire_inv _ _ _ HW Hstep) as [Harmed Hw1].
  assert (HW1 : wired w1) by (eapply wired_step; eassumption).
  assert (Hall : run after w1
                 = run (before ++ ActTimerFire p_max_age_grace_timer status
                               :: after) w0).
  { rewrite run_app. fold w. now rewrite (run_cons_step _ _ _ _ Hstep). }
  pose proof (staged_run get_integer c now args
                (before ++ ActTimerFire p_max_age_grace_timer status
                        :: after))
    as (T1 & T2 & T3 & T4 & T5). fold w0 in T1, T2, T3, T4, T5.
  rewrite <- Hall in T1, T2, T3, T4, T5.
  rewrite Harmed in S4.
  assert (Hd1 : drained w1
                /\ filter is_transport_op (trace w1)
                   = filter is_transport_op (trace w)).
  { rewrite Hw1. callback_eq. unfold drained.
    cbn [exec_ctx max_age_timer max_age_grace_timer transport trace
         log_event set_timer].
    destruct status; [discriminate Hstatus| |]; cbn;
      (repeat split;
       [apply length_zero_iff_nil; lia
       |destruct (max_age_timer w); [cbn in S2; lia|reflexivity]
       |apply length_zero_iff_nil; lia]). }
  destruct Hd1 as [Hd1 Hops].
  destruct (drained_run after w1 HW1 Hd1) as ((_ & Ha & Hg & _) & K2 & _).
  rewrite Hops in K2.
  assert (K : count is_transport_op (trace (run after w1)) = 1%nat).
  { unfold count in *. rewrite K2. lia. }
  repeat split; try assumption.
  - apply count_zero_filter. lia.
  - lia.
Qed.

Lemma grace_timer_failure_leaves_connection_witness :
  filter is_disconnect
    (trace (run [ActTick 9; ActDestroy]
              (run [ActRunScheduled; ActTick 5;
                    ActTimerFire p_max_age_timer GRPC_ERROR_NONE;
                    ActOpConsumed 0 GRPC_ERROR_NONE;
                    ActTimerFire p_max_age_grace_timer
                      (GRPC_ERROR_CREATED "timer list shut down" [])]
                 (init_world grpc_channel_arg_get_integer_spec
                             zeroed_channel_data 0 age5_grace2)))) = [].
Proof.
  apply (grace_timer_failure_leaves_connection
           grpc_channel_arg_get_integer_spec
           zeroed_channel_data 0 age5_grace2
           [ActRunScheduled; ActTick 5;
            ActTimerFire p_max_age_timer GRPC_ERROR_NONE;
            ActOpConsumed 0 GRPC_ERROR_NONE]
           [ActTick 9; ActDestroy]
           (GRPC_ERROR_CREATED "timer list shut down" []));
    vm_compute; reflexivity.
Defined.

(** X8: in every run that follows the constructor, what the constructor
    stored stays as it is: no callback and no teardown changes the channel
    stack, the two durations or the four closures. *)
Theorem configuration_never_rewritten
    (get_integer : grpc_arg -> grpc_integer_options -> Z)
    (c : channel_data) (now : Z) (args : grpc_channel_element_args)
    (acts : list action) :
  let w0 := init_world get_integer c now args in
  let w := run acts w0 in
  channel_stack (chand w) = args_channel_stack args
  /\ max_connection_age (chand w) = max_connection_age (chand w0)
  /\ max_connection_age_grace (chand w)
     = max_connection_age_grace (chand w0)
  /\ (forall p, get_closure p (chand w) = closure_of (cb_of p)).
Proof.
  cbv zeta.
  destruct (same_configuration_run acts _
              (wired_init get_integer c now args)) as (E1 & E2 & E3 & E4).
  destruct (wired_init get_integer c now args) as (Hc & _).
  repeat split; try assumption.
  - rewrite E1, init_world_chand. apply constructed_channel_stack.
  - intro p. now rewrite E4.
Qed.

(** X9: in every run that follows the constructor, every timer is armed with
    its own closure and with the deadline now + the duration the constructor
    stored for it; every transport operation is either the goaway or the
    disconnect operation and goes to element 0 of the channel stack given to
    the constructor; every reference is taken or dropped on that stack; and
    the only closure ever scheduled is the start closure, with no error. *)
Theorem every_event_well_formed
    (get_integer : grpc_arg -> grpc_integer_options -> Z)
    (c : channel_data) (now : Z) (args : grpc_channel_element_args)
    (acts : list action) :
  let w0 := init_world get_integer c now args in
  Forall (event_ok (args_channel_stack args)
                   (max_connection_age (chand w0))
                   (max_connection_age_grace (chand w0)))
         (trace (run acts w0)).
Proof.
  cbv zeta.
  set (w0 := init_world get_integer c now args).
  assert (Hst : channel_stack (chand w0) = args_channel_stack args).
  { unfold w0. rewrite init_world_chand. apply constructed_channel_stack. }
  rewrite <- Hst.
  enough (same_configuration (chand w0) (chand (run acts w0))
          /\ Forall (event_ok (channel_stack (chand w0))
                              (max_connection_age (chand w0))
                              (max_connection_age_grace (chand w0)))
                    (trace (run acts w0))) as [_ H] by exact H.
  apply (run_wired_invariant
           (fun w => same_configuration (chand w0) (chand w)
                     /\ Forall (event_ok (channel_stack (chand w0))
                                         (max_connection_age (chand w0))
                                         (max_connection_age_grace
                                            (chand w0)))
                               (trace w))).
  - intros a w w' _ [Hsame HF] Hm. split.
    + eapply same_configuration_trans; [exact Hsame|].
      eapply same_configuration_move; eassumption.
    + eapply events_ok_move; eassumption.
  - apply wired_init.
  - split; [now repeat split|]. apply events_ok_init.
Qed.

(** ** Further properties of the constructor *)



(** X11: of the configuration the constructor uses only the channel stack,
    the last entry under the age key and the last entry under the grace
    key: earlier entries under the same key and entries under any other key
    change nothing. *)
Theorem last_entries_decide
    (get_integer : grpc_arg -> grpc_integer_options -> Z)
    (c : channel_data) (now : Z) (args args' : grpc_channel_element_args) :
  args_channel_stack args = args_channel_stack args' ->
  last_arg GPRC_ARG_MAX_CONNECION_AGE_S (channel_args args)
  = last_arg GPRC_ARG_MAX_CONNECION_AGE_S (channel_args args') ->
  last_arg GPRC_ARG_MAX_CONNECION_AGE_GRACE_S (channel_args args)
  = last_arg GPRC_ARG_MAX_CONNECION_AGE_GRACE_S (channel_args args') ->
  init_world get_integer c now args = init_world get_integer c now args'.
Proof.
  intros Hs Ha Hg. unfold init_world, exec. rewrite !init_channel_elem_eq.
  cbn [snd chand fresh_world]. rewrite !constructed_eq.
  now rewrite Hs, Ha, Hg.
Qed.

Lemma last_entries_decide_witness :
  init_world grpc_channel_arg_get_integer_spec zeroed_channel_data 0
             repeated_keys
  = init_world grpc_channel_arg_get_integer_spec zeroed_channel_data 0
               age5_grace2.
Proof.
  apply last_entries_decide; reflexivity.
Defined.

(** ** A whole lifetime *)

(** Evaluates the first move of a run on an explicit world, leaving the
    tests on the clock to be decided. *)
Lemma run_cons (a : action) (acts : list action) (w : world) :
  run (a :: acts) w = run acts (do_action a w).
Proof. reflexivity. Qed.

Ltac advance :=
  rewrite run_cons;
  lazymatch goal with
  | |- context [do_action ?a ?w] =>
      let x := fresh "next" in
      set (x := do_action a w);
      cbv -[Z.add Z.leb Z.sub] in x;
      subst x
  end.

(** X12: with a finite maximum age [d] and a finite grace period [g], when
    the start closure runs, the age timer fires with Ok at its deadline, the
    goaway operation is taken downstream and the grace timer fires with Ok at
    its deadline, the filter arms the age timer for now + [d], starts the
    goaway operation, arms the grace timer for now + [d] + [g] and starts the
    disconnect operation, in this order and nothing else; it ends with both
    flags clear, no timer armed and no reference held. *)
Theorem whole_lifetime
    (get_integer : grpc_arg -> grpc_integer_options -> Z)
    (c : channel_data) (now : Z) (args : grpc_channel_element_args)
    (d g : Z) :
  max_connection_age (chand (init_world get_integer c now args)) = Finite d ->
  max_connection_age_grace (chand (init_world get_integer c now args))
  = Finite g ->
  0 <= d -> 0 <= g ->
  let w := run (full_lifetime d g) (init_world get_integer c now args) in
  filter (fun e => is_transport_op e || is_timer_init e) (history w)
  = [EvTimerInit p_max_age_timer (Finite (now + d))
                 p_close_max_age_channel (Finite now);
     EvStartTransportOp (args_channel_stack args) 0 goaway_op;
     EvTimerInit p_max_age_grace_timer (Finite (now + d + g))
                 p_force_close_max_age_channel (Finite (now + d));
     EvStartTransportOp (args_channel_stack args) 0 disconnect_op]
  /\ clock w = now + d + g
  /\ stack_refs w = 0
  /\ exec_ctx w = []
  /\ transport w = [disconnect_op]
  /\ max_age_timer w = None
  /\ max_age_grace_timer w = None
  /\ max_age_timer_pending (chand w) = false
  /\ max_age_grace_timer_pending (chand w) = false.
Proof.
  intros Hd Hg Hd0 Hg0. cbv zeta.
  rewrite (init_world_finite _ _ _ _ _ Hd).
  rewrite init_world_chand, constructed_eq in Hd, Hg.
  cbn [max_connection_age max_connection_age_grace] in Hd, Hg.
  rewrite constructed_eq, Hd, Hg.
  apply Z.leb_le in Hd0, Hg0.
  unfold full_lifetime.
  do 6 (advance; rewrite ?Z.leb_refl, ?Hd0, ?Hg0; cbv beta iota).
  unfold run, history. cbn [fold_left].
  cbv -[Z.add Z.sub]. repeat split.
Qed.

Lemma whole_lifetime_witness :
  filter (fun e => is_transport_op e || is_timer_init e)
    (history (run (full_lifetime 5 2)
                (init_world grpc_channel_arg_get_integer_spec
                            zeroed_channel_data 0 age5_grace2)))
  = [EvTimerInit p_max_age_timer (Finite (0 + 5))
                 p_close_max_age_channel (Finite 0);
     EvStartTransportOp (args_channel_stack age5_grace2) 0 goaway_op;
     EvTimerInit p_max_age_grace_timer (Finite (0 + 5 + 2))
                 p_force_close_max_age_channel (Finite (0 + 5));
     EvStartTransportOp (args_channel_stack age5_grace2) 0 disconnect_op]
  /\ stack_refs (run (full_lifetime 5 2)
                   (init_world grpc_channel_arg_get_integer_spec
                               zeroed_channel_data 0 age5_grace2)) = 0.
Proof.
  destruct (whole_lifetime grpc_channel_arg_get_integer_spec
              zeroed_channel_data 0 age5_grace2 5 2 eq_refl eq_refl)
    as (Hev & _ & Hrefs & _); [lia | lia |].
  split; [exact Hev | exact Hrefs].
Defined.
